(** * rbxts-prim: time units, scheduler primitives, rate limiters, benchmarks

    A shallow embedding of the parts of the library that carry logic:

    - [Time]: the unit table, [convert], [diff], [sortUnits] and [disect]
      (time/unit.ts and its later revision with [disect]);
    - [Scheduler]: [setInterval] and [setTimeout] (scheduler/interval.ts),
      as state machines of the cooperative task each of them spawns;
    - [RateLimit]: [Throttle] and [Debounce] (scheduler/rate-limit.ts);
    - [Benchmark]: the registry behind [start] and [stop].

    Numbers.  The host's numbers are IEEE doubles.  Here a number is an exact
    rational ([Q]): rounding is abstracted away, every other operation is
    the one the source performs.  Where the source divides by a value that a
    caller supplies ([disect] divides by [unit.seconds]) the result type is
    [number], the rationals plus one non-finite value standing for the
    host's [inf], [-inf] and [nan].  What is proved of [convert] and
    [disect] over [Q] is therefore proved of exact arithmetic; [Time64]
    has the same two functions on binary64, to evaluate what the host
    returns on a given input.

    Clock.  A function that reads the clock takes the reading as an
    argument ([now], [cpu]); a call that does not yield reads one value.

    Callbacks.  A callback is opaque: a timer counts its invocations
    ([invoked]), a debounce records the calls it spawns ([spawned]).  What
    a callback does to the handle it runs under is an event like any
    other. *)

From stdpp Require Import base list strings gmap.
From Stdlib Require Import QArith Qround Qminmax Lia Lqa Sorted.
From Stdlib Require Import PrimFloat.

#[local] Set Warnings "-inexact-float".

Local Open Scope Q_scope.

(* ===================================================================== *)
(** ** Time units *)
(* ===================================================================== *)

Module Time.

(** The keys of the exported [Unit] table. *)
Inductive UnitKey :=
| NANO | MICRO | MILLI | SECOND | MINUTE | HOUR | DAY | WEEK | MONTH | YEAR.

(** [type TimeUnit = { seconds; name; symbol }].  A value of the type is
    an object, and [disect] compares units with [===], that is by
    identity: [Unit k] is the object stored in the table under [k];
    [Literal id ...] is any other object, [id] being its identity. *)
Inductive TimeUnit :=
| Unit (k : UnitKey)
| Literal (id : positive) (secs : Q) (nm sym : string).

Definition key_seconds (k : UnitKey) : Q :=
  match k with
  | NANO => 1 # 1000000000
  | MICRO => 1 # 1000000
  | MILLI => 1 # 1000
  | SECOND => 1
  | MINUTE => 60
  | HOUR => 3600
  | DAY => 86400
  | WEEK => 604800
  | MONTH => 2592000
  | YEAR => 31536000
  end.

Definition key_name (k : UnitKey) : string :=
  match k with
  | NANO => "nanosecond" | MICRO => "microsecond" | MILLI => "millisecond"
  | SECOND => "second" | MINUTE => "minute" | HOUR => "hour"
  | DAY => "day" | WEEK => "week" | MONTH => "month" | YEAR => "year"
  end.

Definition key_symbol (k : UnitKey) : string :=
  match k with
  | NANO => "ns" | MICRO => "µs" | MILLI => "ms"
  | SECOND => "s" | MINUTE => "min" | HOUR => "h"
  | DAY => "d" | WEEK => "wk" | MONTH => "mo" | YEAR => "yr"
  end.

Definition seconds (u : TimeUnit) : Q :=
  match u with Unit k => key_seconds k | Literal _ s _ _ => s end.

Definition name (u : TimeUnit) : string :=
  match u with Unit k => key_name k | Literal _ _ n _ => n end.

Definition symbol (u : TimeUnit) : string :=
  match u with Unit k => key_symbol k | Literal _ _ _ s => s end.

Definition key_eqb (a b : UnitKey) : bool :=
  match a, b with
  | NANO, NANO | MICRO, MICRO | MILLI, MILLI | SECOND, SECOND
  | MINUTE, MINUTE | HOUR, HOUR | DAY, DAY | WEEK, WEEK
  | MONTH, MONTH | YEAR, YEAR => true
  | _, _ => false
  end.

(** [a === b] on two unit objects. *)
Definition same_object (a b : TimeUnit) : bool :=
  match a, b with
  | Unit k, Unit k' => key_eqb k k'
  | Literal i _ _ _, Literal j _ _ _ => Pos.eqb i j
  | _, _ => false
  end.

(** [convert(value, from, to) = (value * from.seconds) / to.seconds].
    Every call in the library passes entries of [Unit], whose [seconds]
    are not zero.  The product and the quotient are exact here and
    rounded on the host ([Time64.convert]); a zero divisor, which gives
    the host [inf] or [nan], is outside what is proved of [convert]. *)
Definition convert (value : Q) (from to : TimeUnit) : Q :=
  (value * seconds from) / seconds to.

(** [diff(start, fin) = fin - start]. *)
Definition diff (start fin : Q) : Q := fin - start.

(** *** Numbers that may be non-finite *)

Inductive number :=
| Fin (q : Q)
| NonFinite.

(** [a / b]: a zero divisor gives [inf], [-inf] or [nan]. *)
Definition ndiv (a : number) (b : Q) : number :=
  match a with
  | Fin x => if Qeq_bool b 0 then NonFinite else Fin (x / b)
  | NonFinite => NonFinite
  end.

(** [math.floor]. *)
Definition nfloor (a : number) : number :=
  match a with
  | Fin x => Fin (inject_Z (Qfloor x))
  | NonFinite => NonFinite
  end.

(** [a * b] for a finite [b]: [inf * 0] is [nan], still not finite. *)
Definition nmul (a : number) (b : Q) : number :=
  match a with
  | Fin x => Fin (x * b)
  | NonFinite => NonFinite
  end.

Definition nsub (a b : number) : number :=
  match a, b with
  | Fin x, Fin y => Fin (x - y)
  | _, _ => NonFinite
  end.

Definition nadd (a b : number) : number :=
  match a, b with
  | Fin x, Fin y => Fin (x + y)
  | _, _ => NonFinite
  end.

(** *** sortUnits *)

Inductive Dir := asc | desc.

(** The comparator handed to [units.sort]: [true] when [a] goes first. *)
Definition before (dir : Dir) (a b : TimeUnit) : bool :=
  match dir with
  | asc => negb (Qle_bool (seconds b) (seconds a))   (* a < b *)
  | desc => negb (Qle_bool (seconds a) (seconds b))  (* a > b *)
  end.

(** [units.sort(cmp)].  The host's sort leaves the order of units of
    equal duration unspecified; this one keeps them in argument order. *)
Fixpoint insert_unit (cmp : TimeUnit -> TimeUnit -> bool)
    (u : TimeUnit) (l : list TimeUnit) : list TimeUnit :=
  match l with
  | [] => [u]
  | v :: l' => if cmp v u then v :: insert_unit cmp u l' else u :: l
  end.

Definition sort (cmp : TimeUnit -> TimeUnit -> bool)
    (l : list TimeUnit) : list TimeUnit :=
  foldr (insert_unit cmp) [] l.

Definition sortUnits (units : list TimeUnit) (dir : Dir) : list TimeUnit :=
  sort (before dir) units.

(** *** disect *)

Record Entry := { unit : TimeUnit; amount : number }.

(** One iteration of [for (const unit of targetUnits)], on the pair
    [(res, remainingSeconds)]. *)
Definition consume (st : list Entry * number) (unit : TimeUnit)
    : list Entry * number :=
  let '(res, remainingSeconds) := st in
  let unitSeconds := seconds unit in
  let unitAmount := nfloor (ndiv remainingSeconds unitSeconds) in
  let remainingSeconds := nsub remainingSeconds (nmul unitAmount unitSeconds) in
  (res ++ [{| unit := unit; amount := unitAmount |}], remainingSeconds).

(** [res.find(f)], as the index of the first match. *)
Fixpoint find_index {A} (f : A -> bool) (l : list A) : option nat :=
  match l with
  | [] => None
  | x :: l' => if f x then Some 0%nat else S <$> find_index f l'
  end.

(** The body of [disect] after the sort. *)
Definition disect_units (seconds : Q) (targetUnits : list TimeUnit)
    : list Entry :=
  let '(res, remainingSeconds) := foldl consume ([], Fin seconds) targetUnits in
  match find_index (fun v => same_object (unit v) (Unit SECOND)) res with
  | Some i =>
      alter (fun existing =>
               {| unit := unit existing;
                  amount := nadd (amount existing) remainingSeconds |}) i res
  | None => res ++ [{| unit := Unit SECOND; amount := remainingSeconds |}]
  end.

Definition disect (seconds : Q) (units : list TimeUnit) : list Entry :=
  disect_units seconds (sortUnits units desc).

(** The duration an answer of [disect] stands for:
    the sum of [amount * unit.seconds] over its entries. *)
Definition total (res : list Entry) : number :=
  foldr (fun e acc => nadd (nmul (amount e) (seconds (unit e))) acc) (Fin 0) res.


End Time.

(* ===================================================================== *)
(** ** Time units on binary64 *)
(* ===================================================================== *)

(** [convert] and [disect] once more, on the doubles the host computes
    with, for the units of the table.  Every operation is the IEEE one
    ([PrimFloat]); a decimal literal denotes the double nearest to it, as
    it does for the host. *)

Module Time64.

Import Time.

#[local] Set Warnings "-inexact-float".
Local Open Scope float_scope.

Definition key_seconds (k : UnitKey) : float :=
  match k with
  | NANO => 1e-9
  | MICRO => 1e-6
  | MILLI => 1e-3
  | SECOND => 1
  | MINUTE => 60
  | HOUR => 3600
  | DAY => 86400
  | WEEK => 604800
  | MONTH => 2592000
  | YEAR => 31536000
  end.

Definition convert (value : float) (from to : UnitKey) : float :=
  (value * key_seconds from) / key_seconds to.

(** [math.floor].  Below 2^52 in absolute value, adding and removing
    2^52 rounds to a whole number, which is then lowered by one if it
    came out above [x]; from 2^52 on, and for [inf] and [nan], [x] is its
    own floor. *)
Definition two52 : float := 4503599627370496.

Definition floor (x : float) : float :=
  if abs x <? two52 then
    let t := if 0 <=? x then (x + two52) - two52 else (x - two52) + two52 in
    if x <? t then t - 1 else t
  else x.

Record Entry := { unit : UnitKey; amount : float }.

(** [units.sort(({seconds: a}, {seconds: b}) => a > b)]. *)
Fixpoint insert_desc (u : UnitKey) (l : list UnitKey) : list UnitKey :=
  match l with
  | [] => [u]
  | v :: l' =>
      if key_seconds u <? key_seconds v then v :: insert_desc u l' else u :: l
  end.

Definition sort_desc (units : list UnitKey) : list UnitKey :=
  foldr insert_desc [] units.

Definition consume (st : list Entry * float) (unit : UnitKey)
    : list Entry * float :=
  let '(res, remainingSeconds) := st in
  let unitSeconds := key_seconds unit in
  let unitAmount := floor (remainingSeconds / unitSeconds) in
  let remainingSeconds := remainingSeconds - unitAmount * unitSeconds in
  (res ++ [{| unit := unit; amount := unitAmount |}], remainingSeconds).

Definition disect (seconds : float) (units : list UnitKey) : list Entry :=
  let targetUnits := sort_desc units in
  let '(res, remainingSeconds) := foldl consume ([], seconds) targetUnits in
  match find_index (fun v => key_eqb (unit v) SECOND) res with
  | Some i =>
      alter (fun existing =>
               {| unit := unit existing;
                  amount := amount existing + remainingSeconds |}) i res
  | None => res ++ [{| unit := SECOND; amount := remainingSeconds |}]
  end.

(** The sum of [amount * unit.seconds] over the entries, from the first. *)
Definition total (res : list Entry) : float :=
  foldl (fun acc e => acc + amount e * key_seconds (unit e)) 0 res.

End Time64.

(* ===================================================================== *)
(** ** Scheduler: setInterval and setTimeout *)
(* ===================================================================== *)

(** The host runs one task at a time.  [task.spawn(f)] runs [f] at once,
    up to its first [task.wait]; a task leaves [task.wait(d)] only when the
    host resumes it.  The task a timer spawns is therefore at one of three
    places, and everything else (handle methods called by other tasks or by
    the callback itself) happens between its steps. *)

Module Scheduler.

Import Time.

(** Named as in the source: [sToMs] is given milliseconds and yields
    seconds, [msToS] is given seconds and yields milliseconds. *)
Definition sToMs (ms : Q) : Q := convert ms (Unit MILLI) (Unit SECOND).
Definition msToS (s : Q) : Q := convert s (Unit SECOND) (Unit MILLI).

(** Where the spawned task is. *)
Inductive place :=
| Waiting (secs : Q)   (* inside [task.wait(secs)] *)
| InCallback           (* inside [cb(...args)] *)
| Exited.              (* the task function has returned or raised *)

(** What can happen to a timer.  An event that cannot happen where the
    task is (a [Wake] when it does not wait, a [Return] when no callback
    runs) leaves the state as it is. *)
Inductive event :=
| Wake                 (* the host resumes the task from [task.wait] *)
| Return (now : Q)     (* the callback returns; [now] is the clock then *)
| Raise                (* the callback raises: the task dies *)
| Destroy              (* [handle.destroy()] *)
| SetTimeout (ms : Q). (* [handle.setTimeout(ms)], intervals only *)

(** [!x] for [x : number | undefined]: true of [undefined] and of 0. *)
Definition is_falsy (x : option Q) : bool :=
  match x with
  | None => true
  | Some v => Qeq_bool v 0
  end.

Module Interval.

Record cycle := { c_timeout : Q; c_start : Q }.

Record state := {
  timeout : Q;              (* [let timeout], seconds *)
  destroyed : bool;         (* [let destroyed] *)
  latest : option cycle;    (* [let latest] *)
  at_ : place;
  invoked : nat             (* how many times [cb] was called *)
}.

(** The head of [while (!destroyed) { latest = ...; task.wait(timeout)]. *)
Definition loop_head (now : Q) (s : state) : state :=
  if destroyed s then
    {| timeout := timeout s; destroyed := destroyed s; latest := latest s;
       at_ := Exited; invoked := invoked s |}
  else
    {| timeout := timeout s; destroyed := destroyed s;
       latest := Some {| c_timeout := timeout s; c_start := now |};
       at_ := Waiting (timeout s); invoked := invoked s |}.

(** [setInterval(cb, timeoutMs, ...args)], called when the clock reads
    [now]: the state once the call has returned the handle. *)
Definition setInterval (timeoutMs now : Q) : state :=
  loop_head now
    {| timeout := sToMs timeoutMs; destroyed := false; latest := None;
       at_ := InCallback; invoked := 0 |}.

(** After [task.wait]: [latest = undefined; if (destroyed) break;
    void cb(...args)]. *)
Definition wake (s : state) : state :=
  match at_ s with
  | Waiting _ =>
      if destroyed s then
        {| timeout := timeout s; destroyed := destroyed s; latest := None;
           at_ := Exited; invoked := invoked s |}
      else
        {| timeout := timeout s; destroyed := destroyed s; latest := None;
           at_ := InCallback; invoked := S (invoked s) |}
  | _ => s
  end.

Definition step (e : event) (s : state) : state :=
  match e with
  | Wake => wake s
  | Return now =>
      match at_ s with InCallback => loop_head now s | _ => s end
  | Raise =>
      match at_ s with
      | InCallback =>
          {| timeout := timeout s; destroyed := destroyed s;
             latest := latest s; at_ := Exited; invoked := invoked s |}
      | _ => s
      end
  | Destroy =>
      {| timeout := timeout s; destroyed := true; latest := latest s;
         at_ := at_ s; invoked := invoked s |}
  | SetTimeout ms =>
      {| timeout := sToMs ms; destroyed := destroyed s; latest := latest s;
         at_ := at_ s; invoked := invoked s |}
  end.

Definition run (evs : list event) (s : state) : state :=
  foldl (fun s e => step e s) s evs.

Definition getRemaining (now : Q) (s : state) : Q :=
  match latest s with
  | None => 0
  | Some c =>
      let elapsed := diff (c_start c) now in
      let remaining := Qmax 0 (c_timeout c - elapsed) in
      msToS remaining
  end.

Definition getTimeout (s : state) : Q := msToS (timeout s).
Definition isDestroyed (s : state) : bool := destroyed s.

(** [setIntervalNow(cb, timeoutMs, ...args)]:
    [task.spawn(() => void cb(...args))] calls [cb] at once, then
    [setInterval] is called. *)
Definition setIntervalNow (timeoutMs now : Q) : state :=
  let s := setInterval timeoutMs now in
  {| timeout := timeout s; destroyed := destroyed s; latest := latest s;
     at_ := at_ s; invoked := S (invoked s) |}.

End Interval.

Module Timeout.

Record state := {
  timeout : Q;          (* [const timeout] *)
  start : option Q;     (* [let start] *)
  destroyed : bool;     (* [let destroyed] *)
  executed : bool;      (* [let executed] *)
  at_ : place;
  invoked : nat         (* how many times [cb] was called *)
}.

(** [setTimeout(cb, timeoutMs, ...args)], called when the clock reads
    [now]: the state once the call has returned the handle. *)
Definition setTimeout (timeoutMs now : Q) : state :=
  let timeout := msToS timeoutMs in
  {| timeout := timeout; start := Some now; destroyed := false;
     executed := false; at_ := Waiting timeout; invoked := 0 |}.

(** After [task.wait]: [start = undefined; if (destroyed) return;
    executed = true; cb(...args)]. *)
Definition wake (s : state) : state :=
  match at_ s with
  | Waiting _ =>
      if destroyed s then
        {| timeout := timeout s; start := None; destroyed := destroyed s;
           executed := executed s; at_ := Exited; invoked := invoked s |}
      else
        {| timeout := timeout s; start := None; destroyed := destroyed s;
           executed := true; at_ := InCallback; invoked := S (invoked s) |}
  | _ => s
  end.

Definition finish (s : state) : state :=
  match at_ s with
  | InCallback =>
      {| timeout := timeout s; start := start s; destroyed := destroyed s;
         executed := executed s; at_ := Exited; invoked := invoked s |}
  | _ => s
  end.

Definition destroy (s : state) : state :=
  {| timeout := timeout s; start := start s; destroyed := true;
     executed := executed s; at_ := at_ s; invoked := invoked s |}.

Definition step (e : event) (s : state) : state :=
  match e with
  | Wake => wake s
  | Return _ | Raise => finish s
  | Destroy => destroy s
  | SetTimeout _ => s   (* the handle has no such method *)
  end.

Definition run (evs : list event) (s : state) : state :=
  foldl (fun s e => step e s) s evs.

Definition getRemaining (now : Q) (s : state) : Q :=
  if is_falsy (start s) then 0
  else
    match start s with
    | Some st =>
        let elapsed := diff st now in
        let remaining := Qmax 0 (timeout s - elapsed) in
        msToS remaining
    | None => 0
    end.

Definition getTimeout (s : state) : Q := sToMs (timeout s).
Definition hasExecuted (s : state) : bool := executed s.
Definition isDestroyed (s : state) : bool := destroyed s.

End Timeout.

End Scheduler.

(* ===================================================================== *)
(** ** Rate limiters: Throttle and Debounce *)
(* ===================================================================== *)

Module RateLimit.

Import Time.
Import Scheduler.

Module Throttle.

Record t := {
  timeoutSeconds : Q;
  lastPass : option Q;
  locked : bool
}.

Definition setTimeout (timeoutMs : Q) (th : t) : t :=
  {| timeoutSeconds := convert timeoutMs (Unit MILLI) (Unit SECOND);
     lastPass := lastPass th; locked := locked th |}.

Definition getTimeout (th : t) : Q :=
  convert (timeoutSeconds th) (Unit SECOND) (Unit MINUTE).

(** [new Throttle(timeoutMs)]: the field initialisers, then the
    constructor body [this.setTimeout(timeoutMs)]. *)
Definition new (timeoutMs : Q) : t :=
  setTimeout timeoutMs
    {| timeoutSeconds := 0; lastPass := None; locked := false |}.

(** [now] is what [Time.now()] reads during the call. *)
Definition getRemainingTimeout (now : Q) (th : t) : Q :=
  if is_falsy (lastPass th) then 0
  else
    match lastPass th with
    | Some lp =>
        let diffSeconds := diff lp now in
        Qmax 0 (timeoutSeconds th - diffSeconds)
    | None => 0
    end.

Definition canPass (now : Q) (th : t) : bool :=
  if locked th then false
  else
    let remaining := getRemainingTimeout now th in
    Qeq_bool remaining 0.

(** The returned boolean and the throttle after the call. *)
Definition tryPass (now : Q) (th : t) : bool * t :=
  if negb (canPass now th) then (false, th)
  else
    (true,
     {| timeoutSeconds := timeoutSeconds th; lastPass := Some now;
        locked := locked th |}).

Definition getLastPass (th : t) : option Q := lastPass th.

Definition resetLastPass (th : t) : t :=
  {| timeoutSeconds := timeoutSeconds th; lastPass := None;
     locked := locked th |}.


Definition isLocked (th : t) : bool := locked th.

(** [Throttle.wrap(fn, timeoutMs)] makes a throttle of its own
    ([new timeoutMs]) and returns [(...args) => { if (throttle.tryPass())
    return fn(...args) }].  One call of that function, on the throttle it
    closes over: [None] is [undefined]. *)
Definition wrap_call {A R : Type} (fn : A -> R) (args : A) (now : Q) (throttle : t)
    : option R * t :=
  let '(passed, throttle') := tryPass now throttle in
  if passed then (Some (fn args), throttle') else (None, throttle').

(** Calls made one after the other, at the given clock readings. *)
Fixpoint wrap_calls {A R : Type} (fn : A -> R) (calls : list (A * Q)) (throttle : t)
    : list (option R) * t :=
  match calls with
  | [] => ([], throttle)
  | (args, now) :: rest =>
      let '(r, throttle') := wrap_call fn args now throttle in
      let '(rs, throttle'') := wrap_calls fn rest throttle' in
      (r :: rs, throttle'')
  end.

End Throttle.

Module Debounce.
Section WithCallbacks.

(** What [schedule] is given: a callback together with its arguments. *)
Variable A : Type.

Record t := {
  timeoutMs : Q;
  scheduled : option A;    (* the closure that spawns [cb(...args)] *)
  scheduler : option nat   (* the [Timeout] handle, as an index *)
}.

(** The debounce, every timeout it has created so far, and the calls
    it has spawned, oldest first. *)
Record world := {
  self : t;
  timers : list Timeout.state;
  spawned : list A
}.

Definition new (timeoutMs : Q) : world :=
  {| self := {| timeoutMs := timeoutMs; scheduled := None; scheduler := None |};
     timers := []; spawned := [] |}.

(** [this.scheduler?.destroy()]. *)
Definition destroy_scheduler (w : world) : list Timeout.state :=
  match scheduler (self w) with
  | Some h => alter Timeout.destroy h (timers w)
  | None => timers w
  end.

Definition clear (w : world) : world :=
  {| self := {| timeoutMs := timeoutMs (self w); scheduled := None;
                scheduler := None |};
     timers := destroy_scheduler w;
     spawned := spawned w |}.

Definition flush (w : world) : world :=
  match scheduled (self w) with
  | None => w
  | Some call =>
      clear {| self := self w;
               timers := destroy_scheduler w;
               spawned := spawned w ++ [call] |}
  end.

(** [schedule(cb, ...args)] when the clock reads [now]. *)
Definition schedule (call : A) (now : Q) (w : world) : world :=
  let w1 := clear w in
  {| self := {| timeoutMs := timeoutMs (self w1); scheduled := Some call;
                scheduler := Some (length (timers w1)) |};
     timers := timers w1 ++ [Timeout.setTimeout (timeoutMs (self w1)) now];
     spawned := spawned w1 |}.

(** The host resumes the task of timeout [h]; its callback is
    [() => this.flush()]. *)
Definition resume (h : nat) (w : world) : world :=
  match timers w !! h with
  | Some tm =>
      match Timeout.at_ tm with
      | Waiting _ =>
          let w1 := {| self := self w;
                       timers := <[h := Timeout.wake tm]> (timers w);
                       spawned := spawned w |} in
          match Timeout.at_ (Timeout.wake tm) with
          | InCallback =>
              let w2 := flush w1 in
              {| self := self w2;
                 timers := alter Timeout.finish h (timers w2);
                 spawned := spawned w2 |}
          | _ => w1
          end
      | _ => w
      end
  | None => w
  end.

Definition resume_all (hs : list nat) (w : world) : world :=
  foldl (fun w h => resume h w) w hs.

Definition isScheduled (w : world) : bool :=
  match scheduler (self w) with
  | Some h =>
      match timers w !! h with
      | Some tm => negb (Timeout.hasExecuted tm)
      | None => false
      end
  | None => false
  end.

Definition getRemainingTimeout (now : Q) (w : world) : option Q :=
  match scheduler (self w) with
  | Some h =>
      match timers w !! h with
      | Some tm =>
          if Timeout.hasExecuted tm then None
          else Some (Timeout.getRemaining now tm)
      | None => None
      end
  | None => None
  end.

Definition getTimeout (w : world) : Q := timeoutMs (self w).

Definition setTimeout (ms : Q) (w : world) : world :=
  {| self := {| timeoutMs := ms; scheduled := scheduled (self w);
                scheduler := scheduler (self w) |};
     timers := timers w; spawned := spawned w |}.

(** The calls a program can make on a debounce, and the host resuming
    one of its timeouts.  They happen one after the other: a spawned call
    that calls the debounce again before it yields is not covered. *)
Inductive action :=
| Schedule (call : A) (now : Q)
| Clear
| Flush
| SetTimeoutTo (ms : Q)
| Resume (h : nat).

Definition perform (act : action) (w : world) : world :=
  match act with
  | Schedule call now => schedule call now w
  | Clear => clear w
  | Flush => flush w
  | SetTimeoutTo ms => setTimeout ms w
  | Resume h => resume h w
  end.

Definition perform_all (acts : list action) (w : world) : world :=
  foldl (fun w act => perform act w) w acts.

(** The calls handed to [schedule], in order. *)
Definition scheduled_calls (acts : list action) : list A :=
  omap (fun act => match act with Schedule call _ => Some call | _ => None end) acts.

End WithCallbacks.
End Debounce.

(** [DefaultMap<K, V>]: a map and the generator of the values of unseen
    keys.  A method that writes returns the map afterwards.  [V] is the
    type of the values other than [undefined]. *)
Module DefaultMap.
Section WithTypes.

Context {K : Type} `{Countable K} {V : Type}.

Record t := { generator : K -> V; map : gmap K V }.

(** [new DefaultMap(generator, ...initEntries)]: later entries win. *)
Definition new (generator : K -> V) (initEntries : list (K * V)) : t :=
  {| generator := generator;
     map := foldl (fun m kv => <[kv.1 := kv.2]> m) ∅ initEntries |}.

Definition get (key : K) (dm : t) : V * t :=
  match map dm !! key with
  | Some existing => (existing, dm)
  | None =>
      let generated := generator dm key in
      (generated, {| generator := generator dm; map := <[key := generated]> (map dm) |})
  end.

Definition set (key : K) (value : V) (dm : t) : t :=
  {| generator := generator dm; map := <[key := value]> (map dm) |}.

Definition has (key : K) (dm : t) : bool :=
  bool_decide (is_Some (map dm !! key)).

Definition delete (key : K) (dm : t) : bool * t :=
  (has key dm, {| generator := generator dm; map := base.delete key (map dm) |}).

Definition clear (dm : t) : t := {| generator := generator dm; map := ∅ |}.

Definition size (dm : t) : nat := base.size (map dm).

Definition isEmpty (dm : t) : bool := bool_decide (map dm = ∅).

End WithTypes.
Arguments t K {_ _} V.
End DefaultMap.

End RateLimit.

(* ===================================================================== *)
(** ** Benchmarks by id *)
(* ===================================================================== *)

Module Benchmark.

Import Time.

Record BenchmarkResult := {
  totalSeconds : Q;
  runCount : Q;
  opName : option string
}.

(** How a call ends. *)
Inductive outcome (R : Type) :=
| Returned (r : R)
| Threw (message : string).
Arguments Returned {R} r.
Arguments Threw {R} message.

(** [runningBenchmarks]: start timestamp by id. *)
Abbreviation registry := (gmap string Q).

Definition has (running : registry) (id : string) : bool :=
  bool_decide (is_Some (running !! id)).

(** [start(id)] when [Time.cpu()] reads [cpu]: the registry afterwards
    and how the call ended. *)
Definition start (id : string) (cpu : Q) (running : registry)
    : registry * outcome () :=
  if has running id then
    (running, Threw ("Benchmark with id(" +:+ id +:+ ") already started."))
  else
    (<[id := cpu]> running, Returned ()).

Definition stop (id : string) (cpu : Q) (running : registry)
    : registry * outcome BenchmarkResult :=
  if negb (has running id) then
    (running, Threw ("Benchmark with id(" +:+ id +:+ ") not started."))
  else
    match running !! id with
    | Some start =>
        let fin := cpu in
        (delete id running,
         Returned {| totalSeconds := diff start fin; runCount := 1;
                     opName := Some id |})
    | None => (running, Threw "unreachable")
    end.

(** *** BenchmarkResult *)

Definition getSecondsPerRun (b : BenchmarkResult) : Q := totalSeconds b / runCount b.

(** [formatSeconds] up to its last line: the [value] and the [unit] that
    are handed to the format string ["%.2f " ++ unit.symbol]. *)
Definition formatSeconds_choice (seconds : Q) : Q * TimeUnit :=
  let stepLimit := 1000 in
  let micros := convert seconds (Unit SECOND) (Unit MICRO) in
  if negb (Qle_bool stepLimit micros) then (micros, Unit MICRO)
  else
    let millis := convert seconds (Unit SECOND) (Unit MILLI) in
    if negb (Qle_bool stepLimit millis) then (millis, Unit MILLI)
    else (seconds, Unit SECOND).

(** [math.round]: to the nearest integer, halves away from zero. *)
Definition round (x : Q) : Z :=
  if Qle_bool 0 x then Qfloor (x + (1 # 2)) else Qceiling (x - (1 # 2)).

(** [const runs = math.round(math.max(runCount, 1))], for a [runCount]
    that is a finite number ([Q] has neither [nan] nor [inf]). *)
Definition runs_of (runCount : Q) : Z := round (Qmax runCount 1).

(** [run(f, runCount)]: [f] acts on a state of type [S]; [start] and
    [fin] are the two readings of [Time.cpu()].  The loop
    [for (let i = 0; i < runs; i++) f()] makes [runs] calls. *)
Definition run {S : Type} (f : S -> S) (runCount start fin : Q) (st : S)
    : S * BenchmarkResult :=
  let runs := runs_of runCount in
  (Nat.iter (Z.to_nat runs) f st,
   {| totalSeconds := diff start fin; runCount := inject_Z runs; opName := None |}).

End Benchmark.

(* ===================================================================== *)
(** ** Predicates used to state the properties *)
(* ===================================================================== *)

Module Props.

Import Time Scheduler.

(** Two numbers that denote the same value. *)
Definition same_number (a b : number) : Prop :=
  match a, b with
  | Fin x, Fin y => x == y
  | NonFinite, NonFinite => True
  | _, _ => False
  end.

(** What holds of a timeout at each place of its task. *)
Definition timeout_inv (s : Timeout.state) : Prop :=
  match Timeout.at_ s with
  | Waiting _ => Timeout.executed s = false /\ Timeout.invoked s = 0%nat
  | InCallback => Timeout.executed s = true /\ Timeout.invoked s = 1%nat
  | Exited =>
      (Timeout.executed s = false /\ Timeout.invoked s = 0%nat)
      \/ (Timeout.executed s = true /\ Timeout.invoked s = 1%nat)
  end.

(** A timeout that was destroyed before it could run. *)
Definition cancelled (tm : Timeout.state) : Prop :=
  Timeout.destroyed tm = true /\ Timeout.at_ tm <> InCallback.

(** The rule of [disect] in the words of its documentation: each unit,
    taken in the order given, consumes the floor of the remaining seconds
    divided by its duration, and the remainder passes to the next unit.
    The entries, and what remains after the last unit. *)
Fixpoint greedy (remaining : Q) (units : list TimeUnit) : list Entry * Q :=
  match units with
  | [] => ([], remaining)
  | u :: rest =>
      let consumed := inject_Z (Qfloor (remaining / seconds u)) in
      let '(entries, rem) := greedy (remaining - consumed * seconds u) rest in
      ({| unit := u; amount := Fin consumed |} :: entries, rem)
  end.

(** A timeout whose resumption calls nothing: destroyed while it waits,
    or over. *)
Definition inert (tm : Timeout.state) : Prop :=
  match Timeout.at_ tm with
  | Waiting _ => Timeout.destroyed tm = true
  | InCallback => False
  | Exited => True
  end.

(** A timeout that waits and will call its callback when resumed. *)
Definition pending_timer (tm : Timeout.state) : Prop :=
  (exists d, Timeout.at_ tm = Waiting d)
  /\ Timeout.destroyed tm = false /\ Timeout.executed tm = false.

(** How many times the host resumes the task in a sequence of events. *)
Definition wakes (evs : list event) : nat :=
  length (List.filter (fun e => match e with Wake => true | _ => false end) evs).

(** [k] full cycles of an interval: a resumption, then the callback
    returning at the given clock reading. *)
Definition cycles (returns : list Q) : list event :=
  flat_map (fun t => [Wake; Return t]) returns.

(** No event is a [handle.setTimeout]. *)
Definition keeps_timeout (evs : list event) : Prop :=
  Forall (fun e => match e with SetTimeout _ => False | _ => True end) evs.

Section Debounce.

Context {A : Type}.

Import RateLimit.Debounce.

(** Two schedules made, the second timeout still waiting. *)
Definition second_pending (d : Q) (b : A) (now2 : Q) (w : world A) : Prop :=
  exists t0,
    cancelled t0
    /\ w = {| self := {| timeoutMs := d; scheduled := Some b; scheduler := Some 1%nat |};
              timers := [t0; Timeout.setTimeout d now2];
              spawned := [] |}.

(** The second timeout has fired. *)
Definition second_fired (b : A) (w : world A) : Prop :=
  exists t0 t1,
    cancelled t0 /\ Timeout.at_ t1 = Exited
    /\ timers A w = [t0; t1] /\ spawned A w = [b].

(** What every debounce keeps between calls: a callback is held exactly
    when a timeout is, that timeout waits, and every other timeout the
    debounce has made is inert. *)
Definition debounce_inv (w : world A) : Prop :=
  match scheduler A (self A w), scheduled A (self A w) with
  | Some h, Some _ =>
      (exists tm, timers A w !! h = Some tm /\ pending_timer tm)
      /\ (forall j tm, j <> h -> timers A w !! j = Some tm -> inert tm)
  | None, None => forall j tm, timers A w !! j = Some tm -> inert tm
  | _, _ => False
  end.

(** The call held by the debounce, as a list. *)
Definition held (w : world A) : list A := option_list (scheduled A (self A w)).

End Debounce.

End Props.

(* ===================================================================== *)
(** * Properties *)
(* ===================================================================== *)

(** ** Time: sortUnits and disect *)

Section TimeFacts.

Import Time Props.

Lemma same_number_refl a : same_number a a.
Proof. destruct a; simpl; [reflexivity | exact I]. Qed.


Lemma nadd_same a a' b b' :
  same_number a a' -> same_number b b' -> same_number (nadd a b) (nadd a' b').
Proof.
  destruct a, a', b, b'; simpl; try tauto.
  intros -> ->. reflexivity.
Qed.

Lemma nadd_assoc a b c : same_number (nadd (nadd a b) c) (nadd a (nadd b c)).
Proof. destruct a, b, c; simpl; try exact I. ring. Qed.

Lemma nadd_zero_l a : same_number (nadd (Fin 0) a) a.
Proof. destruct a; simpl; [ring | exact I]. Qed.








Lemma find_index_Some {A} (f : A -> bool) l i :
  find_index f l = Some i -> exists x, l !! i = Some x /\ f x = true.
Proof.
  revert i. induction l as [|y l IH]; intros i; simpl; [discriminate|].
  destruct (f y) eqn:Fy.
  - intros [= <-]. exists y. split; [reflexivity | exact Fy].
  - destruct (find_index f l) as [j|]; simpl; [|discriminate].
    intros [= <-]. destruct (IH j eq_refl) as (x & Hx & Hf).
    exists x. split; [exact Hx | exact Hf].
Qed.

Lemma same_object_SECOND u : same_object u (Unit SECOND) = true -> u = Unit SECOND.
Proof. destruct u as [k|]; [destruct k|]; simpl; congruence. Qed.



Lemma insert_unit_Forall (P : TimeUnit -> Prop) cmp u l :
  P u -> Forall P l -> Forall P (insert_unit cmp u l).
Proof.
  intros Hu. induction 1 as [|v l Hv Hl IH]; simpl.
  - constructor; [exact Hu | constructor].
  - destruct (cmp v u); constructor; auto.
Qed.

Lemma sort_Forall (P : TimeUnit -> Prop) cmp l :
  Forall P l -> Forall P (sort cmp l).
Proof.
  induction 1 as [|u l Hu Hl IH]; simpl; [constructor|].
  apply insert_unit_Forall; assumption.
Qed.

Lemma insert_unit_perm cmp u l : Permutation (insert_unit cmp u l) (u :: l).
Proof.
  induction l as [|v l IH]; simpl; [reflexivity|].
  destruct (cmp v u); [|reflexivity].
  rewrite IH. apply perm_swap.
Qed.

(** [sortUnits] only reorders. *)
Lemma sortUnits_perm units dir : Permutation (sortUnits units dir) units.
Proof.
  unfold sortUnits, sort. induction units as [|u l IH]; simpl; [reflexivity|].
  rewrite insert_unit_perm. constructor. exact IH.
Qed.

(** In direction [desc] no unit is followed by a longer one. *)
Lemma insert_unit_desc_sorted u l :
  StronglySorted (fun a b => seconds b <= seconds a) l ->
  StronglySorted (fun a b => seconds b <= seconds a) (insert_unit (before desc) u l).
Proof.
  induction 1 as [|v l Hl IH Hv]; simpl.
  - constructor; constructor.
  - destruct (Qle_bool (seconds v) (seconds u)) eqn:E; simpl.
    + apply Qle_bool_iff in E.
      constructor; [constructor; assumption|].
      constructor; [exact E|].
      eapply Forall_impl; [exact Hv|].
      intros x Hx. simpl in *. eapply Qle_trans; [exact Hx | exact E].
    + assert (Hlt : seconds u <= seconds v).
      { destruct (Qlt_le_dec (seconds u) (seconds v)) as [H | H].
        - apply Qlt_le_weak, H.
        - apply Qle_bool_iff in H. congruence. }
      constructor; [exact IH|].
      apply insert_unit_Forall; assumption.
Qed.

Lemma sortUnits_desc_sorted units :
  StronglySorted (fun a b => seconds b <= seconds a) (sortUnits units desc).
Proof.
  unfold sortUnits, sort. induction units as [|u l IH]; simpl; [constructor|].
  apply insert_unit_desc_sorted, IH.
Qed.

(** The loop of [disect] computes the rule [greedy] states. *)
Lemma loop_greedy l : forall res r,
  Forall (fun u => ~ seconds u == 0) l ->
  foldl consume (res, Fin r) l
  = (res ++ fst (greedy r l), Fin (snd (greedy r l))).
Proof.
  induction l as [|u l IH]; intros res r Hall.
  - simpl. rewrite app_nil_r. reflexivity.
  - inversion Hall as [|? ? Hu Hl]; subst.
    assert (Hnz : Qeq_bool (seconds u) 0 = false).
    { destruct (Qeq_bool (seconds u) 0) eqn:E; [|reflexivity].
      apply Qeq_bool_iff in E. contradiction. }
    set (z := Qfloor (r / seconds u)).
    set (r1 := r - inject_Z z * seconds u).
    set (e := {| unit := u; amount := Fin (inject_Z z) |}).
    assert (Hstep : consume (res, Fin r) u = (res ++ [e], Fin r1)).
    { unfold consume, ndiv. rewrite Hnz. reflexivity. }
    change (foldl consume (res, Fin r) (u :: l))
      with (foldl consume (consume (res, Fin r) u) l).
    rewrite Hstep, (IH _ _ Hl).
    change (greedy r (u :: l))
      with (let '(entries, rem) := greedy r1 l in (e :: entries, rem)).
    destruct (greedy r1 l) as [entries rem].
    simpl. rewrite <- app_assoc. reflexivity.
Qed.

End TimeFacts.

(** ** Scheduler: timeouts *)

Section TimeoutFacts.

Import Time Scheduler Scheduler.Timeout Props.

Lemma msToS_value s : msToS s == s * 1000.
Proof. unfold msToS, convert. simpl. field. Qed.

Lemma sToMs_value ms : sToMs ms == ms / 1000.
Proof. unfold sToMs, convert. simpl. field. Qed.

Lemma timeout_run_app evs1 evs2 s : run (evs1 ++ evs2) s = run evs2 (run evs1 s).
Proof. unfold run. apply foldl_app. Qed.

Lemma timeout_inv_init ms now : timeout_inv (setTimeout ms now).
Proof. unfold timeout_inv. simpl. split; reflexivity. Qed.

Lemma timeout_inv_step e s : timeout_inv s -> timeout_inv (step e s).
Proof.
  unfold timeout_inv.
  destruct s as [tm st d ex pl n], e; simpl;
    destruct pl, d; simpl; intuition (try discriminate; auto).
Qed.

Lemma timeout_inv_run evs : forall s, timeout_inv s -> timeout_inv (run evs s).
Proof.
  induction evs as [|e evs IH]; intros s Hs; [exact Hs|].
  apply (IH (step e s)), timeout_inv_step, Hs.
Qed.

(** A step never resets [destroyed] or [executed]. *)
Lemma step_flags_monotone e s :
  (destroyed s = true -> destroyed (step e s) = true)
  /\ (executed s = true -> executed (step e s) = true).
Proof.
  destruct s as [tm st d ex pl n], e; simpl; destruct pl, d; simpl; auto.
Qed.

(** Destroyed and not yet executed: it stays that way. *)
Lemma destroyed_unexecuted_step e s :
  timeout_inv s -> destroyed s = true -> executed s = false ->
  destroyed (step e s) = true /\ executed (step e s) = false
  /\ invoked (step e s) = 0%nat.
Proof.
  unfold timeout_inv.
  destruct s as [tm st d ex pl n], e; simpl; intros Hinv -> ->;
    destruct pl; simpl in *; intuition (try discriminate; auto).
Qed.

Lemma destroyed_unexecuted_run evs : forall s,
  timeout_inv s -> destroyed s = true -> executed s = false ->
  executed (run evs s) = false /\ invoked (run evs s) = 0%nat.
Proof.
  induction evs as [|e evs IH]; intros s Hinv Hd Hx.
  - simpl. split; [exact Hx|].
    unfold timeout_inv in Hinv. destruct (at_ s); intuition congruence.
  - destruct (destroyed_unexecuted_step e s Hinv Hd Hx) as (Hd' & Hx' & _).
    apply (IH (step e s)); auto using timeout_inv_step.
Qed.

(** If both flags are set at the end, the first [destroy()] came when
    [executed] was already set. *)
Lemma both_flags_split evs : forall s,
  timeout_inv s -> destroyed s = false ->
  executed (run evs s) = true -> destroyed (run evs s) = true ->
  exists pre post,
    evs = pre ++ Destroy :: post
    /\ executed (run pre s) = true /\ destroyed (run pre s) = false.
Proof.
  induction evs as [|e evs IH]; intros s Hinv Hd Hx Hd'.
  - simpl in Hd'. congruence.
  - destruct (destroyed (step e s)) eqn:Hds.
    + assert (e = Destroy) as ->.
      { destruct s as [tm st d ex pl n], e; simpl in *; subst;
          destruct pl; simpl in *; congruence. }
      destruct (executed s) eqn:Hxs.
      * exists [], evs. simpl. auto.
      * exfalso.
        assert (Hds' : destroyed (step Destroy s) = true) by reflexivity.
        destruct (destroyed_unexecuted_run evs (step Destroy s)) as [Hno _];
          [apply timeout_inv_step, Hinv | exact Hds' | exact Hxs |].
        change (run (Destroy :: evs) s) with (run evs (step Destroy s)) in Hx.
        congruence.
    + destruct (IH (step e s)) as (pre & post & -> & Hpx & Hpd);
        [apply timeout_inv_step, Hinv | exact Hds | exact Hx | exact Hd' |].
      exists (e :: pre), post. split; [reflexivity|]. split; assumption.
Qed.

End TimeoutFacts.

(** ** Scheduler: intervals *)

Section IntervalFacts.

Import Time Scheduler Scheduler.Interval.

Lemma interval_run_app evs1 evs2 s : run (evs1 ++ evs2) s = run evs2 (run evs1 s).
Proof. unfold run. apply foldl_app. Qed.

(** Once [destroyed] is set, a step keeps it set and calls nothing. *)
Lemma interval_destroyed_step e s :
  destroyed s = true ->
  destroyed (step e s) = true /\ invoked (step e s) = invoked s.
Proof.
  destruct s as [tm d lt pl n], e; simpl; intros ->;
    unfold wake, loop_head; simpl; destruct pl; simpl; auto.
Qed.

Lemma interval_destroyed_run evs : forall s,
  destroyed s = true ->
  destroyed (run evs s) = true /\ invoked (run evs s) = invoked s.
Proof.
  induction evs as [|e evs IH]; intros s Hd; [simpl; auto|].
  destruct (interval_destroyed_step e s Hd) as [Hd' Hn].
  destruct (IH (step e s) Hd') as [Hd'' Hn'].
  change (run (e :: evs) s) with (run evs (step e s)).
  split; [exact Hd'' | congruence].
Qed.

(** Until the host resumes the first wait, the task stays in it. *)
Lemma interval_first_wait pre : forall s d,
  ~ In Wake pre -> at_ s = Waiting d ->
  at_ (run pre s) = Waiting d /\ invoked (run pre s) = invoked s.
Proof.
  induction pre as [|e pre IH]; intros s d Hno Hw; [simpl; auto|].
  assert (He : e <> Wake) by (intros ->; apply Hno; left; reflexivity).
  assert (Hpre : ~ In Wake pre) by (intros H; apply Hno; right; exact H).
  assert (Hs : at_ (step e s) = Waiting d /\ invoked (step e s) = invoked s).
  { destruct s as [tm ds lt pl n], e; simpl in *; subst; auto; congruence. }
  destruct Hs as [Hw' Hn].
  destruct (IH (step e s) d Hpre Hw') as [Hw'' Hn'].
  change (run (e :: pre) s) with (run pre (step e s)).
  split; [exact Hw'' | congruence].
Qed.

End IntervalFacts.

(** ** Throttle *)

Section ThrottleFacts.

Import Time Scheduler RateLimit.Throttle.

Lemma Qmax0_zero x : Qeq_bool (Qmax 0 x) 0 = true <-> x <= 0.
Proof.
  rewrite Qeq_bool_iff. split.
  - intros H. rewrite <- H. apply Q.le_max_r.
  - intros H. apply Q.max_l. exact H.
Qed.

Lemma canPass_true now th :
  canPass now th = true <->
  locked th = false /\ (is_falsy (lastPass th) = true
     \/ exists lp, lastPass th = Some lp /\ timeoutSeconds th <= now - lp).
Proof.
  unfold canPass, getRemainingTimeout, diff.
  destruct (locked th); [intuition discriminate|].
  destruct (lastPass th) as [lp|] eqn:E; simpl.
  - destruct (Qeq_bool lp 0) eqn:Z.
    + split; [intros _; split; [reflexivity | left; reflexivity] | reflexivity].
    + rewrite Qmax0_zero. split.
      * intros H. split; [reflexivity|]. right. exists lp. split; [reflexivity|]. lra.
      * intros [_ [H | (lp' & [= <-] & H)]]; [discriminate | lra].
  - split; [intros _; split; [reflexivity | left; reflexivity] | reflexivity].
Qed.

Lemma tryPass_fst now th : fst (tryPass now th) = canPass now th.
Proof. unfold tryPass. destruct (canPass now th); reflexivity. Qed.

Lemma getTimeout_setTimeout w th : getTimeout (setTimeout w th) == w / 60000.
Proof.
  unfold getTimeout, setTimeout, convert. simpl.
  unfold Qeq, Qdiv, Qmult, Qinv. simpl. lia.
Qed.

End ThrottleFacts.

(** ** Debounce *)

Section DebounceFacts.

Import Time Scheduler RateLimit.Debounce Props.

Context {A : Type}.

Lemma cancelled_wake t0 : cancelled t0 -> cancelled (Timeout.wake t0)
  /\ Timeout.at_ (Timeout.wake t0) <> InCallback.
Proof.
  unfold cancelled, Timeout.wake. intros [Hd Hp].
  destruct (Timeout.at_ t0) eqn:E; rewrite ?Hd; simpl; rewrite ?E;
    repeat split; auto; try discriminate.
Qed.

Lemma after_two_schedules d (a b : A) now1 now2 :
  second_pending d b now2 (schedule A b now2 (schedule A a now1 (new A d))).
Proof.
  exists (Timeout.destroy (Timeout.setTimeout d now1)).
  split; [split; [reflexivity | discriminate] | reflexivity].
Qed.

Lemma resume_fired b h w : second_fired b w -> second_fired b (resume A h w).
Proof.
  intros (t0 & t1 & Hc & Ht1 & Htm & Hsp). unfold resume. rewrite Htm.
  destruct h as [|[|h]]; simpl.
  - destruct (cancelled_wake t0 Hc) as [Hc' Hp'].
    destruct (Timeout.at_ t0) eqn:E0; try (exists t0, t1; auto; fail).
    destruct (Timeout.at_ (Timeout.wake t0)) eqn:E; [| congruence |].
    + exists (Timeout.wake t0), t1. simpl. auto.
    + exists (Timeout.wake t0), t1. simpl. auto.
  - rewrite Ht1. exists t0, t1. auto.
  - exists t0, t1. auto.
Qed.

Lemma resume_pending d b now2 h w :
  second_pending d b now2 w ->
  (h <> 1%nat -> second_pending d b now2 (resume A h w))
  /\ (h = 1%nat -> second_fired b (resume A h w)).
Proof.
  intros (t0 & Hc & ->). split.
  - intros Hh. unfold resume. destruct h as [|[|h]]; simpl; [| congruence |].
    + destruct (cancelled_wake t0 Hc) as [Hc' Hp'].
      destruct (Timeout.at_ t0) eqn:E0; try (exists t0; auto; fail).
      destruct (Timeout.at_ (Timeout.wake t0)) eqn:E; [| congruence |];
        exists (Timeout.wake t0); auto.
    + exists t0. auto.
  - intros ->. unfold resume. simpl.
    eexists t0, _. split; [exact Hc|]. split; [|split; reflexivity].
    reflexivity.
Qed.

Lemma resume_all_fired b hs : forall w,
  second_fired b w -> second_fired b (resume_all A hs w).
Proof.
  induction hs as [|h hs IH]; intros w Hw; [exact Hw|].
  apply (IH (resume A h w)), resume_fired, Hw.
Qed.

Lemma resume_all_pending d b now2 hs : forall w,
  second_pending d b now2 w ->
  spawned A (resume_all A hs w)
  = if bool_decide (1%nat ∈ hs) then [b] else [].
Proof.
  induction hs as [|h hs IH]; intros w Hw.
  - destruct Hw as (t0 & _ & ->). reflexivity.
  - destruct (resume_pending d b now2 h w Hw) as [Hne Heq].
    change (resume_all A (h :: hs) w) with (resume_all A hs (resume A h w)).
    destruct (decide (h = 1%nat)) as [->|Hh].
    + rewrite bool_decide_eq_true_2 by (left).
      destruct (resume_all_fired b hs _ (Heq eq_refl)) as (? & ? & _ & _ & _ & Hsp).
      exact Hsp.
    + rewrite (IH _ (Hne Hh)).
      assert (Hiff : (1%nat ∈ hs) <-> (1%nat ∈ h :: hs)).
      { rewrite elem_of_cons. intuition congruence. }
      destruct (bool_decide (1%nat ∈ hs)) eqn:B.
      * apply bool_decide_eq_true in B.
        rewrite bool_decide_eq_true_2 by (apply Hiff, B). reflexivity.
      * apply bool_decide_eq_false in B.
        rewrite bool_decide_eq_false_2 by (rewrite <- Hiff; exact B). reflexivity.
Qed.

End DebounceFacts.

(** ** Benchmarks *)

Section BenchmarkFacts.

Import Benchmark.

Lemma has_true (running : registry) id : has running id = true <-> is_Some (running !! id).
Proof. unfold has. apply bool_decide_eq_true. Qed.

Lemma has_false (running : registry) id : has running id = false <-> running !! id = None.
Proof.
  unfold has. rewrite bool_decide_eq_false, eq_None_not_Some. reflexivity.
Qed.

(** The calls that do not raise: [start] records the clock under a new
    id, [stop] removes the id and reports the elapsed time. *)
Lemma start_fresh id cpu (running : registry) :
  running !! id = None ->
  start id cpu running = (<[id := cpu]> running, Returned ()).
Proof. intros H. unfold start. apply has_false in H. rewrite H. reflexivity. Qed.

Lemma stop_running id cpu (running : registry) t0 :
  running !! id = Some t0 ->
  stop id cpu running
  = (delete id running,
     Returned {| totalSeconds := Time.diff t0 cpu; runCount := 1;
                 opName := Some id |}).
Proof.
  intros H. unfold stop.
  assert (Hh : has running id = true) by (apply has_true; eauto).
  rewrite Hh, H. reflexivity.
Qed.

End BenchmarkFacts.

(* ===================================================================== *)
(** * The claims *)
(* ===================================================================== *)

(** ** Timeouts *)

(** C1.  What [setTimeout(cb, delayMs)] does: the start timestamp is
    recorded, the task suspends, on resumption the timestamp is cleared
    and, unless [destroy()] came first, [executed] is set and [cb] is
    invoked once.  The duration handed to [task.wait] is however
    [delayMs * 1000] seconds, not [delayMs / 1000]: a delay of 1000 ms
    suspends for 1000000 seconds. *)
Theorem setTimeout_waits_delay_times_1000 :
  (forall delayMs now,
     let s := Scheduler.Timeout.setTimeout delayMs now in
     Scheduler.Timeout.start s = Some now
     /\ Scheduler.Timeout.at_ s = Scheduler.Waiting (Scheduler.msToS delayMs)
     /\ Scheduler.msToS delayMs == delayMs * 1000
     /\ Scheduler.Timeout.start (Scheduler.Timeout.wake s) = None
     /\ Scheduler.Timeout.executed (Scheduler.Timeout.wake s) = true
     /\ Scheduler.Timeout.invoked (Scheduler.Timeout.wake s) = 1%nat
     /\ Scheduler.Timeout.executed
          (Scheduler.Timeout.wake (Scheduler.Timeout.destroy s)) = false
     /\ Scheduler.Timeout.invoked
          (Scheduler.Timeout.wake (Scheduler.Timeout.destroy s)) = 0%nat)
  /\ Scheduler.Timeout.at_ (Scheduler.Timeout.setTimeout 1000 0)
     = Scheduler.Waiting 1000000
  /\ ~ 1000000 == 1000 / 1000.
Proof.
  split; [|split; [reflexivity | discriminate]].
  intros delayMs now. simpl. repeat split. apply msToS_value.
Qed.

(** C3.  On the code the claim fails: [destroy()] sets [destroyed]
    whenever it is called.  A timeout whose callback has run has
    [executed] set and [destroyed] not; a [destroy()] then leaves it with
    both set, where the claim, and the docstring of [destroy]
    ("otherwise this does nothing"), have it change nothing.  The other
    half of the claim holds: after a [destroy()] before the suspension
    ends, [executed] is never set. *)
Theorem timeout_destroy_after_callback_sets_destroyed delayMs now t :
  Scheduler.Timeout.executed
    (Scheduler.Timeout.run [Scheduler.Wake; Scheduler.Return t]
       (Scheduler.Timeout.setTimeout delayMs now)) = true
  /\ Scheduler.Timeout.destroyed
       (Scheduler.Timeout.run [Scheduler.Wake; Scheduler.Return t]
          (Scheduler.Timeout.setTimeout delayMs now)) = false
  /\ Scheduler.Timeout.executed
       (Scheduler.Timeout.run
          [Scheduler.Wake; Scheduler.Return t; Scheduler.Destroy]
          (Scheduler.Timeout.setTimeout delayMs now)) = true
  /\ Scheduler.Timeout.destroyed
       (Scheduler.Timeout.run
          [Scheduler.Wake; Scheduler.Return t; Scheduler.Destroy]
          (Scheduler.Timeout.setTimeout delayMs now)) = true
  /\ (forall evs,
        Scheduler.Timeout.executed
          (Scheduler.Timeout.run (Scheduler.Destroy :: evs)
             (Scheduler.Timeout.setTimeout delayMs now)) = false).
Proof.
  split; [reflexivity|]. split; [reflexivity|].
  split; [reflexivity|]. split; [reflexivity|].
  intros evs.
  apply (destroyed_unexecuted_run evs
           (Scheduler.Timeout.step Scheduler.Destroy
              (Scheduler.Timeout.setTimeout delayMs now))).
  - apply timeout_inv_step, timeout_inv_init.
  - reflexivity.
  - reflexivity.
Qed.

(** The life of a timeout.  For every timeout and every sequence of events:
    [destroy()] before the suspension ends keeps [executed] false and the
    callback uncalled for ever; the callback is called at most once;
    [destroy()] always sets [destroyed] and changes neither [executed]
    nor the number of calls; and [executed] and [destroyed] are both set
    only when the first [destroy()] came after [executed] was set. *)
Theorem timeout_destroy_lifecycle delayMs now :
  let s0 := Scheduler.Timeout.setTimeout delayMs now in
  (forall pre post,
     Scheduler.Timeout.destroyed (Scheduler.Timeout.run pre s0) = true ->
     Scheduler.Timeout.executed (Scheduler.Timeout.run pre s0) = false ->
     Scheduler.Timeout.executed (Scheduler.Timeout.run (pre ++ post) s0) = false
     /\ Scheduler.Timeout.invoked (Scheduler.Timeout.run (pre ++ post) s0) = 0%nat)
  /\ (forall evs,
        (Scheduler.Timeout.invoked (Scheduler.Timeout.run evs s0) <= 1)%nat
        /\ Scheduler.Timeout.destroyed
             (Scheduler.Timeout.destroy (Scheduler.Timeout.run evs s0)) = true
        /\ Scheduler.Timeout.executed
             (Scheduler.Timeout.destroy (Scheduler.Timeout.run evs s0))
           = Scheduler.Timeout.executed (Scheduler.Timeout.run evs s0)
        /\ Scheduler.Timeout.invoked
             (Scheduler.Timeout.destroy (Scheduler.Timeout.run evs s0))
           = Scheduler.Timeout.invoked (Scheduler.Timeout.run evs s0))
  /\ (forall evs,
        Scheduler.Timeout.executed (Scheduler.Timeout.run evs s0) = true ->
        Scheduler.Timeout.destroyed (Scheduler.Timeout.run evs s0) = true ->
        exists pre post,
          evs = pre ++ Scheduler.Destroy :: post
          /\ Scheduler.Timeout.executed (Scheduler.Timeout.run pre s0) = true
          /\ Scheduler.Timeout.destroyed (Scheduler.Timeout.run pre s0) = false).
Proof.
  intros s0.
  assert (Hinv : forall evs, Props.timeout_inv (Scheduler.Timeout.run evs s0)).
  { intros evs. apply timeout_inv_run, timeout_inv_init. }
  split; [|split].
  - intros pre post Hd Hx. rewrite timeout_run_app.
    apply destroyed_unexecuted_run; [apply Hinv | exact Hd | exact Hx].
  - intros evs. split; [|split; [|split]; reflexivity].
    specialize (Hinv evs). unfold Props.timeout_inv in Hinv.
    destruct (Scheduler.Timeout.at_ _); intuition lia.
  - intros evs Hx Hd.
    apply (both_flags_split evs s0); [apply timeout_inv_init | reflexivity | exact Hx | exact Hd].
Qed.

Lemma timeout_destroy_lifecycle_witness :
  (Scheduler.Timeout.destroyed
     (Scheduler.Timeout.run [Scheduler.Destroy]
        (Scheduler.Timeout.setTimeout 1000 0)) = true
   /\ Scheduler.Timeout.executed
        (Scheduler.Timeout.run [Scheduler.Destroy]
           (Scheduler.Timeout.setTimeout 1000 0)) = false)
  /\ Scheduler.Timeout.executed
       (Scheduler.Timeout.run
          ([Scheduler.Destroy] ++ [Scheduler.Wake; Scheduler.Return 1])
          (Scheduler.Timeout.setTimeout 1000 0)) = false
  /\ exists pre post,
       [Scheduler.Wake; Scheduler.Return 1; Scheduler.Destroy]
       = pre ++ Scheduler.Destroy :: post
       /\ Scheduler.Timeout.executed
            (Scheduler.Timeout.run pre (Scheduler.Timeout.setTimeout 1000 0)) = true
       /\ Scheduler.Timeout.destroyed
            (Scheduler.Timeout.run pre (Scheduler.Timeout.setTimeout 1000 0)) = false.
Proof.
  split; [split; reflexivity|]. split.
  - apply (proj1 (timeout_destroy_lifecycle 1000 0) [Scheduler.Destroy]); reflexivity.
  - apply (proj2 (proj2 (timeout_destroy_lifecycle 1000 0))); reflexivity.
Defined.

(** ** Intervals *)

(** C5.  Once the [destroyed] flag of an interval is set, at whatever
    point of its execution, the callback is not invoked again, the
    invocation that a pending wait was about to make included; and an
    interval destroyed before its first wait is over never invokes the
    callback, whatever the period. *)
Theorem interval_destroyed_never_invokes :
  (forall s evs,
     Scheduler.Interval.destroyed s = true ->
     Scheduler.Interval.invoked (Scheduler.Interval.run evs s)
     = Scheduler.Interval.invoked s)
  /\ (forall periodMs now pre post,
        ~ In Scheduler.Wake pre ->
        Scheduler.Interval.invoked
          (Scheduler.Interval.run (pre ++ Scheduler.Destroy :: post)
             (Scheduler.Interval.setInterval periodMs now)) = 0%nat).
Proof.
  split.
  - intros s evs Hd. apply interval_destroyed_run, Hd.
  - intros periodMs now pre post Hpre.
    rewrite interval_run_app.
    destruct (interval_first_wait pre (Scheduler.Interval.setInterval periodMs now)
                (Scheduler.sToMs periodMs) Hpre eq_refl) as [_ Hn].
    change (Scheduler.Interval.run (Scheduler.Destroy :: post) ?s)
      with (Scheduler.Interval.run post (Scheduler.Interval.step Scheduler.Destroy s)).
    destruct (interval_destroyed_run post
                (Scheduler.Interval.step Scheduler.Destroy
                   (Scheduler.Interval.run pre
                      (Scheduler.Interval.setInterval periodMs now))) eq_refl)
      as [_ Hn'].
    rewrite Hn'. simpl. exact Hn.
Qed.

Lemma interval_destroyed_never_invokes_witness :
  Scheduler.Interval.destroyed
    (Scheduler.Interval.step Scheduler.Destroy
       (Scheduler.Interval.setInterval 100 0)) = true
  /\ Scheduler.Interval.invoked
       (Scheduler.Interval.run
          [Scheduler.Wake; Scheduler.Return 1; Scheduler.Wake]
          (Scheduler.Interval.step Scheduler.Destroy
             (Scheduler.Interval.setInterval 100 0))) = 0%nat
  /\ ~ In Scheduler.Wake [Scheduler.SetTimeout 10]
  /\ Scheduler.Interval.invoked
       (Scheduler.Interval.run
          ([Scheduler.SetTimeout 10] ++ Scheduler.Destroy
             :: [Scheduler.Wake; Scheduler.Return 1; Scheduler.Wake])
          (Scheduler.Interval.setInterval 100 0)) = 0%nat.
Proof.
  assert (Hpre : ~ In Scheduler.Wake [Scheduler.SetTimeout 10]).
  { simpl. intros [H | H]; [discriminate H | exact H]. }
  split; [reflexivity|]. split; [|split; [exact Hpre|]].
  - apply (proj1 interval_destroyed_never_invokes
             (Scheduler.Interval.step Scheduler.Destroy
                (Scheduler.Interval.setInterval 100 0))).
    reflexivity.
  - apply (proj2 interval_destroyed_never_invokes 100 0 [Scheduler.SetTimeout 10]).
    exact Hpre.
Defined.

(** C6.  [setTimeout(ms)] on an interval whose wait is in flight changes
    neither the recorded cycle nor the duration of the wait, nor what
    [getRemaining] reports; the next cycle, begun when the callback of
    this one returns, records and waits for the new period, [ms / 1000]
    seconds. *)
Theorem interval_setTimeout_spares_cycle_in_flight s d c ms :
  Scheduler.Interval.at_ s = Scheduler.Waiting d ->
  Scheduler.Interval.latest s = Some c ->
  Scheduler.Interval.destroyed s = false ->
  let s' := Scheduler.Interval.step (Scheduler.SetTimeout ms) s in
  Scheduler.Interval.latest s' = Some c
  /\ Scheduler.Interval.at_ s' = Scheduler.Waiting d
  /\ (forall now, Scheduler.Interval.getRemaining now s'
                  = Scheduler.Interval.getRemaining now s)
  /\ (forall now,
        let s'' := Scheduler.Interval.run
                     [Scheduler.Wake; Scheduler.Return now] s' in
        Scheduler.Interval.invoked s'' = S (Scheduler.Interval.invoked s)
        /\ Scheduler.Interval.latest s''
           = Some {| Scheduler.Interval.c_timeout := Scheduler.sToMs ms;
                     Scheduler.Interval.c_start := now |}
        /\ Scheduler.Interval.at_ s'' = Scheduler.Waiting (Scheduler.sToMs ms))
  /\ Scheduler.sToMs ms == ms / 1000.
Proof.
  intros Hw Hl Hd s'.
  destruct s as [tm ds lt pl n]. simpl in *. subst.
  split; [reflexivity|]. split; [reflexivity|]. split; [reflexivity|].
  split; [|apply sToMs_value].
  intros now. repeat split.
Qed.

(** The example of the specification: period 100 ms, [setTimeout(10)] in
    the middle of the first cycle. *)
Lemma interval_setTimeout_spares_cycle_in_flight_witness :
  Scheduler.Interval.at_ (Scheduler.Interval.setInterval 100 0)
  = Scheduler.Waiting (Scheduler.sToMs 100)
  /\ Scheduler.Interval.destroyed (Scheduler.Interval.setInterval 100 0) = false
  /\ Scheduler.Interval.latest
       (Scheduler.Interval.step (Scheduler.SetTimeout 10)
          (Scheduler.Interval.setInterval 100 0))
     = Some {| Scheduler.Interval.c_timeout := Scheduler.sToMs 100;
               Scheduler.Interval.c_start := 0 |}
  /\ Scheduler.Interval.at_
       (Scheduler.Interval.step (Scheduler.SetTimeout 10)
          (Scheduler.Interval.setInterval 100 0))
     = Scheduler.Waiting (Scheduler.sToMs 100)
  /\ Scheduler.Interval.at_
       (Scheduler.Interval.run [Scheduler.Wake; Scheduler.Return (1 # 10)]
          (Scheduler.Interval.step (Scheduler.SetTimeout 10)
             (Scheduler.Interval.setInterval 100 0)))
     = Scheduler.Waiting (Scheduler.sToMs 10).
Proof.
  pose proof (interval_setTimeout_spares_cycle_in_flight
                (Scheduler.Interval.setInterval 100 0)
                (Scheduler.sToMs 100)
                {| Scheduler.Interval.c_timeout := Scheduler.sToMs 100;
                   Scheduler.Interval.c_start := 0 |}
                10 eq_refl eq_refl eq_refl) as (H1 & H2 & _ & H4 & _).
  split; [reflexivity|]. split; [reflexivity|].
  split; [exact H1|]. split; [exact H2|].
  exact (proj2 (proj2 (H4 (1 # 10)))).
Defined.

(** ** Debounce *)

(** C4, as the code has it.  After [schedule(cb, 'a')] and then
    [schedule(cb, 'b')] with no timeout resumed in between, whatever
    timeouts the host resumes afterwards and in whatever order, the only
    call spawned is [cb('b')], once, when the second timeout is resumed;
    the first is cancelled.  The second timeout starts at the second call
    and waits [delay * 1000] seconds, not [delay] milliseconds. *)
Theorem debounce_second_schedule_wins {A : Type} (delay : Q) (a b : A)
    (now1 now2 : Q) (resumed : list nat) :
  let w := RateLimit.Debounce.schedule A b now2
             (RateLimit.Debounce.schedule A a now1
                (RateLimit.Debounce.new A delay)) in
  RateLimit.Debounce.spawned A (RateLimit.Debounce.resume_all A resumed w)
  = (if bool_decide (1%nat ∈ resumed) then [b] else [])
  /\ exists t0 t1,
       RateLimit.Debounce.timers A w = [t0; t1]
       /\ Scheduler.Timeout.destroyed t0 = true
       /\ Scheduler.Timeout.start t1 = Some now2
       /\ Scheduler.Timeout.at_ t1 = Scheduler.Waiting (Scheduler.msToS delay)
       /\ Scheduler.msToS delay == delay * 1000.
Proof.
  intros w. split.
  - apply (resume_all_pending delay b now2), after_two_schedules.
  - eexists _, _. split; [reflexivity|]. repeat split. apply msToS_value.
Qed.

(** A delay of 100 ms: the call is made after a wait of 100000 seconds. *)
Example debounce_100ms :
  let w := RateLimit.Debounce.schedule string "b" 0
             (RateLimit.Debounce.schedule string "a" 0
                (RateLimit.Debounce.new string 100)) in
  RateLimit.Debounce.spawned string
    (RateLimit.Debounce.resume_all string [0; 1]%nat w) = ["b"]
  /\ Scheduler.Timeout.at_ <$> (RateLimit.Debounce.timers string w !! 1%nat)
     = Some (Scheduler.Waiting 100000).
Proof. split; reflexivity. Qed.

(** ** Throttle *)

(** C2, as the code has it.  [getTimeout()] after [setTimeout(w)]
    returns [w / 60000], the window in minutes, not [w]: a window of
    60000 ms is reported as 1. *)
Theorem throttle_getTimeout_reports_minutes :
  (forall w th,
     RateLimit.Throttle.getTimeout (RateLimit.Throttle.setTimeout w th)
     == w / 60000)
  /\ RateLimit.Throttle.getTimeout
       (RateLimit.Throttle.setTimeout 60000 (RateLimit.Throttle.new 0)) == 1
  /\ ~ RateLimit.Throttle.getTimeout
         (RateLimit.Throttle.setTimeout 60000 (RateLimit.Throttle.new 0))
       == 60000.
Proof.
  split; [exact getTimeout_setTimeout|].
  split; [reflexivity | discriminate].
Qed.

(** Clock 0.  [!this.lastPass] is also true of a last pass recorded when
    the clock read 0, the Unix epoch: such a pass counts as none.
    [Time.now()] does not read 0, so the case is left out below. *)
Lemma throttle_passes_twice_at_clock_zero :
  RateLimit.Throttle.locked
    (snd (RateLimit.Throttle.tryPass 0 (RateLimit.Throttle.new 1000))) = false
  /\ RateLimit.Throttle.lastPass
       (snd (RateLimit.Throttle.tryPass 0 (RateLimit.Throttle.new 1000))) = Some 0
  /\ ~ RateLimit.Throttle.timeoutSeconds
         (snd (RateLimit.Throttle.tryPass 0 (RateLimit.Throttle.new 1000)))
       <= 0 - 0
  /\ fst (RateLimit.Throttle.tryPass 0
            (snd (RateLimit.Throttle.tryPass 0 (RateLimit.Throttle.new 1000))))
     = true.
Proof.
  split; [reflexivity|]. split; [reflexivity|]. split; [|reflexivity].
  intros H. vm_compute in H. apply H. reflexivity.
Qed.



(** ** disect *)

(** C8.  [disect(125, SECOND, MINUTE)] returns [{MINUTE, 2}, {SECOND, 5}],
    in exact arithmetic and on binary64 alike, by the rule the claim
    states, which holds of every call: the units are taken in descending
    order of duration ([sortUnits] permutes them into that order), each
    unit consumes the floor of the remaining seconds divided by its
    duration and the remainder passes to the next unit ([Props.greedy]),
    what remains at the end going to the SECOND entry. *)
Theorem disect_125_second_minute :
  (Time.sortUnits [Time.Unit Time.SECOND; Time.Unit Time.MINUTE] Time.desc
   = [Time.Unit Time.MINUTE; Time.Unit Time.SECOND]
   /\ Time.disect 125 [Time.Unit Time.SECOND; Time.Unit Time.MINUTE]
      = [ {| Time.unit := Time.Unit Time.MINUTE; Time.amount := Time.Fin 2 |};
          {| Time.unit := Time.Unit Time.SECOND; Time.amount := Time.Fin 5 |} ]
   /\ Time64.disect 125%float [Time.SECOND; Time.MINUTE]
      = [ {| Time64.unit := Time.MINUTE; Time64.amount := 2%float |};
          {| Time64.unit := Time.SECOND; Time64.amount := 5%float |} ])
  /\ (forall units,
        Permutation (Time.sortUnits units Time.desc) units
        /\ StronglySorted (fun a b => Time.seconds b <= Time.seconds a)
             (Time.sortUnits units Time.desc))
  /\ (forall s units,
        Forall (fun u => ~ Time.seconds u == 0) units ->
        Time.disect s units
        = match
            Time.find_index
              (fun v => Time.same_object (Time.unit v) (Time.Unit Time.SECOND))
              (fst (Props.greedy s (Time.sortUnits units Time.desc)))
          with
          | Some i =>
              alter (fun existing =>
                       {| Time.unit := Time.unit existing;
                          Time.amount :=
                            Time.nadd (Time.amount existing)
                              (Time.Fin
                                 (snd (Props.greedy s
                                         (Time.sortUnits units Time.desc)))) |})
                i (fst (Props.greedy s (Time.sortUnits units Time.desc)))
          | None =>
              fst (Props.greedy s (Time.sortUnits units Time.desc))
              ++ [ {| Time.unit := Time.Unit Time.SECOND;
                      Time.amount :=
                        Time.Fin
                          (snd (Props.greedy s
                                  (Time.sortUnits units Time.desc))) |} ]
          end).
Proof.
  split; [split; [|split]; vm_compute; reflexivity|]. split.
  - intros units. split; [apply sortUnits_perm | apply sortUnits_desc_sorted].
  - intros s units Hall.
    unfold Time.disect, Time.disect_units.
    rewrite (loop_greedy _ [] s) by (apply sort_Forall, Hall).
    reflexivity.
Qed.

Lemma disect_125_second_minute_witness :
  Forall (fun u => ~ Time.seconds u == 0)
    [Time.Unit Time.SECOND; Time.Unit Time.MINUTE]
  /\ Time.disect 125 [Time.Unit Time.SECOND; Time.Unit Time.MINUTE]
     = match
         Time.find_index
           (fun v => Time.same_object (Time.unit v) (Time.Unit Time.SECOND))
           (fst (Props.greedy 125
                   (Time.sortUnits [Time.Unit Time.SECOND; Time.Unit Time.MINUTE]
                      Time.desc)))
       with
       | Some i =>
           alter (fun existing =>
                    {| Time.unit := Time.unit existing;
                       Time.amount :=
                         Time.nadd (Time.amount existing)
                           (Time.Fin
                              (snd (Props.greedy 125
                                      (Time.sortUnits
                                         [Time.Unit Time.SECOND; Time.Unit Time.MINUTE]
                                         Time.desc)))) |})
             i (fst (Props.greedy 125
                       (Time.sortUnits [Time.Unit Time.SECOND; Time.Unit Time.MINUTE]
                          Time.desc)))
       | None =>
           fst (Props.greedy 125
                  (Time.sortUnits [Time.Unit Time.SECOND; Time.Unit Time.MINUTE]
                     Time.desc))
           ++ [ {| Time.unit := Time.Unit Time.SECOND;
                   Time.amount :=
                     Time.Fin
                       (snd (Props.greedy 125
                               (Time.sortUnits
                                  [Time.Unit Time.SECOND; Time.Unit Time.MINUTE]
                                  Time.desc))) |} ]
       end.
Proof.
  assert (H : Forall (fun u => ~ Time.seconds u == 0)
                [Time.Unit Time.SECOND; Time.Unit Time.MINUTE]).
  { repeat constructor; simpl; discriminate. }
  split; [exact H|].
  exact (proj2 (proj2 disect_125_second_minute) 125 _ H).
Defined.




(** ** Benchmarks *)

(** C9.  [start(id)] on an id that is running and [stop(id)] on an id
    that is not both raise at once and leave the registry as it was. *)
Theorem benchmark_misuse_throws_and_keeps_registry id cpu (running : gmap string Q) :
  (is_Some (running !! id) ->
   Benchmark.start id cpu running
   = (running,
      Benchmark.Threw ("Benchmark with id(" +:+ id +:+ ") already started.")))
  /\ (running !! id = None ->
      Benchmark.stop id cpu running
      = (running,
         Benchmark.Threw ("Benchmark with id(" +:+ id +:+ ") not started."))).
Proof.
  split; intros H.
  - apply has_true in H. unfold Benchmark.start. rewrite H. reflexivity.
  - apply has_false in H. unfold Benchmark.stop. rewrite H. reflexivity.
Qed.

Lemma benchmark_misuse_throws_and_keeps_registry_witness :
  (is_Some (({[ "load" := 3 ]} : gmap string Q) !! "load")
   /\ ({[ "load" := 3 ]} : gmap string Q) !! "save" = None)
  /\ Benchmark.start "load" 4 {[ "load" := 3 ]}
     = ({[ "load" := 3 ]},
        Benchmark.Threw "Benchmark with id(load) already started.")
  /\ Benchmark.stop "save" 4 {[ "load" := 3 ]}
     = ({[ "load" := 3 ]},
        Benchmark.Threw "Benchmark with id(save) not started.").
Proof.
  assert (H1 : is_Some (({[ "load" := 3 ]} : gmap string Q) !! "load")).
  { vm_compute. eexists. reflexivity. }
  assert (H2 : ({[ "load" := 3 ]} : gmap string Q) !! "save" = None).
  { vm_compute. reflexivity. }
  split; [split; [exact H1 | exact H2]|]. split.
  - exact (proj1 (benchmark_misuse_throws_and_keeps_registry "load" 4 _) H1).
  - exact (proj2 (benchmark_misuse_throws_and_keeps_registry "save" 4 _) H2).
Defined.

(* ===================================================================== *)
(** * Further properties of the same files *)
(* ===================================================================== *)

(** ** Time: convert, sortUnits, disect *)

Section MoreTimeFacts.

Import Time Props.

Lemma insert_unit_sorted dir u l :
  StronglySorted
    (fun a b => match dir with
                | asc => seconds a <= seconds b
                | desc => seconds b <= seconds a
                end) l ->
  StronglySorted
    (fun a b => match dir with
                | asc => seconds a <= seconds b
                | desc => seconds b <= seconds a
                end) (insert_unit (before dir) u l).
Proof.
  destruct dir.
  - induction 1 as [|v l Hl IH Hv]; simpl.
    + constructor; constructor.
    + destruct (Qle_bool (seconds u) (seconds v)) eqn:E; simpl.
      * apply Qle_bool_iff in E.
        constructor; [constructor; assumption|].
        constructor; [exact E|].
        eapply Forall_impl; [exact Hv|].
        intros x Hx. simpl in *. eapply Qle_trans; [exact E | exact Hx].
      * assert (Hlt : seconds v <= seconds u).
        { destruct (Qlt_le_dec (seconds v) (seconds u)) as [H | H].
          - apply Qlt_le_weak, H.
          - apply Qle_bool_iff in H. congruence. }
        constructor; [exact IH|].
        apply insert_unit_Forall; assumption.
  - apply insert_unit_desc_sorted.
Qed.

(** The remainder of a division by a positive unit. *)
Lemma floor_remainder r u :
  0 < u ->
  0 <= r - inject_Z (Qfloor (r / u)) * u
  /\ r - inject_Z (Qfloor (r / u)) * u < u.
Proof.
  intros Hu.
  assert (Hr : r == (r / u) * u) by (field; lra).
  pose proof (Qfloor_le (r / u)) as Hlo.
  pose proof (Qlt_floor (r / u)) as Hhi.
  rewrite inject_Z_plus in Hhi.
  set (f := inject_Z (Qfloor (r / u))) in *.
  set (q := r / u) in *.
  assert (H1 : f * u <= q * u) by (apply Qmult_le_compat_r; lra).
  assert (H2 : q * u < (f + inject_Z 1) * u) by (apply Qmult_lt_compat_r; lra).
  assert (H3 : (f + inject_Z 1) * u == f * u + u) by (simpl; ring).
  split; lra.
Qed.

Lemma floor_nonneg r u : 0 <= r -> 0 < u -> (0 <= Qfloor (r / u))%Z.
Proof.
  intros Hr Hu.
  assert (Hq : 0 <= r / u).
  { apply Qle_shift_div_l; [exact Hu | lra]. }
  change 0%Z with (Qfloor 0). apply Qfloor_resp_le, Hq.
Qed.

(** The loop adds one entry per unit, in order. *)
Lemma loop_units l : forall res r,
  map unit (fst (foldl consume (res, r) l)) = map unit res ++ l.
Proof.
  induction l as [|u l IH]; intros res r; simpl.
  - rewrite app_nil_r. reflexivity.
  - rewrite IH, map_app. simpl. rewrite <- app_assoc. reflexivity.
Qed.

(** The loop on positive units, from a finite remainder. *)
Lemma loop_positive l : forall res r,
  Forall (fun u => 0 < seconds u) l ->
  exists es r',
    foldl consume (res, Fin r) l = (res ++ es, Fin r')
    /\ map unit es = l
    /\ (0 <= r ->
        0 <= r'
        /\ Forall (fun e => exists z, amount e = Fin (inject_Z z) /\ (0 <= z)%Z) es)
    /\ (forall u, last l = Some u -> 0 <= r' /\ r' < seconds u).
Proof.
  induction l as [|u l IH]; intros res r Hpos.
  - exists [], r. simpl. rewrite app_nil_r.
    split; [reflexivity|]. split; [reflexivity|].
    split; [intros Hr; split; [exact Hr | constructor] | discriminate].
  - inversion Hpos as [|? ? Hu Hl]; subst.
    assert (Hnz : Qeq_bool (seconds u) 0 = false).
    { destruct (Qeq_bool (seconds u) 0) eqn:E; [|reflexivity].
      apply Qeq_bool_iff in E. lra. }
    destruct (floor_remainder r (seconds u) Hu) as [Hlo Hhi].
    set (z := Qfloor (r / seconds u)) in *.
    set (r1 := r - inject_Z z * seconds u) in *.
    set (e := {| unit := u; amount := Fin (inject_Z z) |}).
    assert (Hstep : consume (res, Fin r) u = (res ++ [e], Fin r1)).
    { unfold consume, ndiv. rewrite Hnz. reflexivity. }
    destruct (IH (res ++ [e]) r1 Hl) as (es & r' & E & Hunits & Hnonneg & Hlast).
    exists (e :: es), r'.
    split.
    { change (foldl consume (res, Fin r) (u :: l))
        with (foldl consume (consume (res, Fin r) u) l).
      rewrite Hstep, E, <- app_assoc. reflexivity. }
    split; [simpl; rewrite Hunits; reflexivity|].
    split.
    + intros Hr. destruct (Hnonneg Hlo) as [Hr' Hes].
      split; [exact Hr'|]. constructor; [|exact Hes].
      exists z. split; [reflexivity | apply floor_nonneg; assumption].
    + intros u' Hu'. destruct l as [|v l].
      * simpl in Hu'. injection Hu' as <-.
        simpl in E. injection E as _ <-.
        split; [exact Hlo | exact Hhi].
      * apply Hlast. exact Hu'.
Qed.

Lemma find_index_None {A} (f : A -> bool) l :
  find_index f l = None <-> Forall (fun x => f x = false) l.
Proof.
  induction l as [|x l IH]; simpl.
  - split; [constructor | reflexivity].
  - destruct (f x) eqn:E.
    + split; [discriminate|]. intros H. inversion H; congruence.
    + destruct (find_index f l); simpl.
      * split; [discriminate|]. intros H. inversion H as [|? ? _ Hl]; subst.
        apply IH in Hl. discriminate.
      * split; [|reflexivity]. intros _. constructor; [exact E | apply IH; reflexivity].
Qed.

Lemma find_index_units (res : list Entry) :
  find_index (fun v => same_object (unit v) (Unit SECOND)) res
  = find_index (fun u => same_object u (Unit SECOND)) (map unit res).
Proof. induction res as [|e res IH]; simpl; [reflexivity|]. rewrite IH. reflexivity. Qed.

Lemma find_index_existsb {A} (f : A -> bool) l :
  existsb f l = bool_decide (is_Some (find_index f l)).
Proof.
  induction l as [|x l IH]; simpl; [reflexivity|].
  destruct (f x); simpl; [reflexivity|].
  rewrite IH. destruct (find_index f l); reflexivity.
Qed.

Lemma existsb_perm {A} (f : A -> bool) l1 l2 :
  Permutation l1 l2 -> existsb f l1 = existsb f l2.
Proof.
  induction 1; simpl; try congruence.
  destruct (f x), (f y); reflexivity.
Qed.

Lemma map_unit_alter (g : number -> number) i (res : list Entry) :
  map unit (alter (fun existing =>
                     {| unit := unit existing; amount := g (amount existing) |}) i res)
  = map unit res.
Proof.
  revert i. induction res as [|e res IH]; intros [|i]; simpl; try reflexivity.
  f_equal. apply IH.
Qed.

(** In a list sorted downwards the last element is the smallest. *)
Lemma desc_sorted_last l m :
  StronglySorted (fun a b => seconds b <= seconds a) l ->
  last l = Some m ->
  Forall (fun x => seconds m <= seconds x) l.
Proof.
  induction 1 as [|v l Hl IH Hv]; intros Hm; [discriminate|].
  destruct l as [|w l].
  - simpl in Hm. injection Hm as <-. constructor; [lra | constructor].
  - assert (Hm' : last (w :: l) = Some m) by exact Hm.
    constructor; [|apply IH, Hm'].
    apply last_Some_elem_of in Hm'.
    rewrite Forall_forall in Hv. apply Hv, Hm'.
Qed.

End MoreTimeFacts.

(** X1.  Converting a value to another unit and back gives the value,
    when neither unit lasts zero seconds. *)
Theorem convert_round_trip v a b :
  ~ Time.seconds a == 0 -> ~ Time.seconds b == 0 ->
  Time.convert (Time.convert v a b) b a == v.
Proof. intros Ha Hb. unfold Time.convert. field. split; assumption. Qed.

Lemma convert_round_trip_witness :
  (~ Time.seconds (Time.Unit Time.MILLI) == 0
   /\ ~ Time.seconds (Time.Unit Time.HOUR) == 0)
  /\ Time.convert (Time.convert 90 (Time.Unit Time.MILLI) (Time.Unit Time.HOUR))
       (Time.Unit Time.HOUR) (Time.Unit Time.MILLI) == 90.
Proof.
  assert (Ha : ~ Time.seconds (Time.Unit Time.MILLI) == 0) by discriminate.
  assert (Hb : ~ Time.seconds (Time.Unit Time.HOUR) == 0) by discriminate.
  split; [split; assumption | exact (convert_round_trip 90 _ _ Ha Hb)].
Defined.

(** X2.  Conversions compose: going from [a] to [c] through [b] is going
    from [a] to [c], when [b] and [c] do not last zero seconds. *)
Theorem convert_composes v a b c :
  ~ Time.seconds b == 0 -> ~ Time.seconds c == 0 ->
  Time.convert (Time.convert v a b) b c == Time.convert v a c.
Proof. intros Hb Hc. unfold Time.convert. field. split; assumption. Qed.

Lemma convert_composes_witness :
  (~ Time.seconds (Time.Unit Time.MINUTE) == 0
   /\ ~ Time.seconds (Time.Unit Time.DAY) == 0)
  /\ Time.convert
       (Time.convert 7 (Time.Unit Time.WEEK) (Time.Unit Time.MINUTE))
       (Time.Unit Time.MINUTE) (Time.Unit Time.DAY)
     == Time.convert 7 (Time.Unit Time.WEEK) (Time.Unit Time.DAY).
Proof.
  assert (Hb : ~ Time.seconds (Time.Unit Time.MINUTE) == 0) by discriminate.
  assert (Hc : ~ Time.seconds (Time.Unit Time.DAY) == 0) by discriminate.
  split; [split; assumption | exact (convert_composes 7 _ _ _ Hb Hc)].
Defined.

(** X3.  [sortUnits] returns the units it was given, each as many times,
    ordered by duration: upwards for ['asc'], downwards for ['desc']. *)
Theorem sortUnits_sorts units dir :
  Permutation (Time.sortUnits units dir) units
  /\ StronglySorted
       (fun a b => match dir with
                   | Time.asc => Time.seconds a <= Time.seconds b
                   | Time.desc => Time.seconds b <= Time.seconds a
                   end)
       (Time.sortUnits units dir).
Proof.
  split; [apply sortUnits_perm|].
  unfold Time.sortUnits, Time.sort.
  induction units as [|u l IH]; simpl; [constructor|].
  apply insert_unit_sorted, IH.
Qed.

(** X4.  The entries of [disect] are one per given unit, longest unit
    first, followed by an entry for SECOND when the SECOND of the table is
    not among the given units. *)
Theorem disect_entries_follow_units s units :
  map Time.unit (Time.disect s units)
  = Time.sortUnits units Time.desc
    ++ (if existsb (fun u => Time.same_object u (Time.Unit Time.SECOND)) units
        then [] else [Time.Unit Time.SECOND]).
Proof.
  unfold Time.disect, Time.disect_units.
  pose proof (loop_units (Time.sortUnits units Time.desc) [] (Time.Fin s)) as Hu.
  destruct (foldl Time.consume ([], Time.Fin s) (Time.sortUnits units Time.desc))
    as [res r].
  simpl in Hu.
  rewrite (existsb_perm _ units (Time.sortUnits units Time.desc))
    by (symmetry; apply sortUnits_perm).
  rewrite find_index_existsb, <- Hu, <- find_index_units.
  destruct (Time.find_index _ res) as [i|]; simpl.
  - rewrite app_nil_r.
    apply (map_unit_alter (fun x => Time.nadd x r)).
  - rewrite map_app. reflexivity.
Qed.

(** X5.  In exact arithmetic: with units that all last more than zero
    seconds, none of them the SECOND of the table, the last entry of
    [disect] is the SECOND entry, and its amount, what no unit could
    consume, is at least zero and less than every given unit.  (On
    binary64 rounding can put the leftover just outside these bounds.) *)
Theorem disect_leftover_below_every_unit s units :
  units <> [] ->
  Forall (fun u => 0 < Time.seconds u) units ->
  existsb (fun u => Time.same_object u (Time.Unit Time.SECOND)) units = false ->
  exists r,
    last (Time.disect s units)
    = Some {| Time.unit := Time.Unit Time.SECOND; Time.amount := Time.Fin r |}
    /\ 0 <= r
    /\ Forall (fun u => r < Time.seconds u) units.
Proof.
  intros Hne Hpos Hno.
  pose proof (sortUnits_perm units Time.desc) as Hperm.
  assert (Hpos' : Forall (fun u => 0 < Time.seconds u) (Time.sortUnits units Time.desc))
    by (apply sort_Forall, Hpos).
  destruct (last (Time.sortUnits units Time.desc)) as [m|] eqn:Hm.
  2:{ apply last_None in Hm. rewrite Hm in Hperm.
      apply Permutation_nil_l in Hperm. congruence. }
  destruct (loop_positive _ [] s Hpos') as (es & r & E & Hunits & _ & Hlast).
  destruct (Hlast m Hm) as [Hlo Hhi].
  exists r. split; [|split; [exact Hlo|]].
  - unfold Time.disect, Time.disect_units. rewrite E. simpl.
    rewrite find_index_units, Hunits.
    rewrite (existsb_perm _ units (Time.sortUnits units Time.desc)) in Hno
      by (symmetry; exact Hperm).
    rewrite find_index_existsb in Hno.
    destruct (Time.find_index _ (Time.sortUnits units Time.desc)); [discriminate|].
    apply last_snoc.
  - pose proof (desc_sorted_last _ m (sortUnits_desc_sorted units) Hm) as Hmin.
    rewrite Hperm in Hmin.
    eapply Forall_impl; [exact Hmin|].
    intros u Hu. simpl in Hu. lra.
Qed.

Lemma disect_leftover_below_every_unit_witness :
  ([Time.Unit Time.MINUTE; Time.Unit Time.HOUR] <> []
   /\ Forall (fun u => 0 < Time.seconds u) [Time.Unit Time.MINUTE; Time.Unit Time.HOUR]
   /\ existsb (fun u => Time.same_object u (Time.Unit Time.SECOND))
        [Time.Unit Time.MINUTE; Time.Unit Time.HOUR] = false)
  /\ exists r,
       last (Time.disect 3725 [Time.Unit Time.MINUTE; Time.Unit Time.HOUR])
       = Some {| Time.unit := Time.Unit Time.SECOND; Time.amount := Time.Fin r |}
       /\ 0 <= r
       /\ Forall (fun u => r < Time.seconds u)
            [Time.Unit Time.MINUTE; Time.Unit Time.HOUR].
Proof.
  assert (H1 : [Time.Unit Time.MINUTE; Time.Unit Time.HOUR] <> []) by discriminate.
  assert (H2 : Forall (fun u => 0 < Time.seconds u)
                 [Time.Unit Time.MINUTE; Time.Unit Time.HOUR]).
  { repeat constructor. }
  assert (H3 : existsb (fun u => Time.same_object u (Time.Unit Time.SECOND))
                 [Time.Unit Time.MINUTE; Time.Unit Time.HOUR] = false) by reflexivity.
  split; [split; [exact H1 | split; [exact H2 | exact H3]]|].
  exact (disect_leftover_below_every_unit 3725 _ H1 H2 H3).
Defined.

(** X6.  In exact arithmetic: for a duration of at least zero seconds
    and units that all last more than zero seconds, every amount returned
    by [disect] is finite and at least zero, and the amount of every unit
    other than the SECOND of the table is a whole number.  (On binary64
    rounding can make a quotient fall just below zero, and its floor -1.) *)
Theorem disect_amounts_nonnegative_whole s units :
  0 <= s ->
  Forall (fun u => 0 < Time.seconds u) units ->
  Forall (fun e =>
            exists q, Time.amount e = Time.Fin q /\ 0 <= q
                      /\ (Time.unit e <> Time.Unit Time.SECOND ->
                          exists z, q = inject_Z z))
         (Time.disect s units).
Proof.
  intros Hs Hpos.
  assert (Hpos' : Forall (fun u => 0 < Time.seconds u) (Time.sortUnits units Time.desc))
    by (apply sort_Forall, Hpos).
  destruct (loop_positive _ [] s Hpos') as (es & r & E & _ & Hnonneg & _).
  destruct (Hnonneg Hs) as [Hr Hes].
  unfold Time.disect, Time.disect_units. rewrite E. simpl.
  assert (Hes' : Forall (fun e =>
            exists q, Time.amount e = Time.Fin q /\ 0 <= q
                      /\ (Time.unit e <> Time.Unit Time.SECOND ->
                          exists z, q = inject_Z z)) es).
  { eapply Forall_impl; [exact Hes|].
    intros e (z & Hz & Hz0). exists (inject_Z z).
    split; [exact Hz|]. split; [|intros _; exists z; reflexivity].
    change 0 with (inject_Z 0). rewrite <- Zle_Qle. exact Hz0. }
  destruct (Time.find_index _ es) as [i|] eqn:F.
  - destruct (find_index_Some _ _ _ F) as (e & Hi & He).
    apply same_object_SECOND in He.
    apply Forall_alter; [exact Hes'|].
    intros x Hx (q & Hq & Hq0 & _). rewrite Hi in Hx. injection Hx as <-.
    exists (q + r). simpl. rewrite Hq. simpl.
    split; [reflexivity|]. split; [lra|]. intros Hne. contradiction.
  - apply Forall_app. split; [exact Hes'|].
    constructor; [|constructor].
    exists r. simpl. split; [reflexivity|]. split; [exact Hr|].
    intros Hne. contradiction.
Qed.

Lemma disect_amounts_nonnegative_whole_witness :
  (0 <= 251 # 2
   /\ Forall (fun u => 0 < Time.seconds u)
        [Time.Unit Time.SECOND; Time.Unit Time.MINUTE])
  /\ Forall (fun e =>
               exists q, Time.amount e = Time.Fin q /\ 0 <= q
                         /\ (Time.unit e <> Time.Unit Time.SECOND ->
                             exists z, q = inject_Z z))
            (Time.disect (251 # 2) [Time.Unit Time.SECOND; Time.Unit Time.MINUTE]).
Proof.
  assert (H1 : 0 <= 251 # 2) by discriminate.
  assert (H2 : Forall (fun u => 0 < Time.seconds u)
                 [Time.Unit Time.SECOND; Time.Unit Time.MINUTE]).
  { repeat constructor. }
  split; [split; [exact H1 | exact H2]|].
  exact (disect_amounts_nonnegative_whole (251 # 2) _ H1 H2).
Defined.

(** ** Scheduler: more on intervals *)

Section MoreIntervalFacts.

Import Time Scheduler Scheduler.Interval Props.

Lemma interval_keeps_timeout evs : forall s,
  keeps_timeout evs -> timeout (run evs s) = timeout s.
Proof.
  induction evs as [|e evs IH]; intros s Hk; [reflexivity|].
  inversion Hk as [|? ? He Hrest]; subst.
  change (run (e :: evs) s) with (run evs (step e s)).
  rewrite (IH _ Hrest).
  destruct s as [tm d lt pl n], e; simpl in *; try contradiction;
    unfold wake, loop_head; simpl; destruct pl, d; reflexivity.
Qed.

Lemma interval_cycles returns : forall s d,
  at_ s = Waiting d -> destroyed s = false ->
  let s' := run (cycles returns) s in
  invoked s' = (invoked s + length returns)%nat
  /\ destroyed s' = false
  /\ timeout s' = timeout s
  /\ (returns <> [] -> at_ s' = Waiting (timeout s))
  /\ (forall t, last returns = Some t ->
      latest s' = Some {| c_timeout := timeout s; c_start := t |}).
Proof.
  induction returns as [|t returns IH]; intros s d Hw Hd.
  - simpl. rewrite Nat.add_0_r.
    split; [reflexivity|]. split; [exact Hd|]. split; [reflexivity|].
    split; [intros H; congruence | intros t H; discriminate].
  - set (s1 := step (Return t) (step Wake s)).
    assert (H1 : invoked s1 = S (invoked s) /\ destroyed s1 = false
                 /\ timeout s1 = timeout s /\ at_ s1 = Waiting (timeout s)
                 /\ latest s1 = Some {| c_timeout := timeout s; c_start := t |}).
    { subst s1. destruct s as [tm ds lt pl n]. simpl in *. subst. simpl.
      repeat split. }
    destruct H1 as (Hn & Hd1 & Ht & Hw1 & Hl).
    change (run (cycles (t :: returns)) s) with (run (cycles returns) s1).
    clearbody s1.
    destruct (IH s1 (timeout s) Hw1 Hd1) as (Hn' & Hd' & Ht' & Hw' & Hl').
    simpl. split; [rewrite Hn', Hn, Nat.add_succ_r; reflexivity|]. split; [exact Hd'|].
    split; [congruence|]. split.
    + intros _. destruct returns as [|t' returns]; [exact Hw1|].
      rewrite Hw' by discriminate. congruence.
    + intros t0 Ht0. destruct returns as [|t' returns].
      * change (Some t = Some t0) in Ht0. injection Ht0 as <-. exact Hl.
      * rewrite (Hl' t0 Ht0). congruence.
Qed.

Lemma interval_invoked_step e s :
  (invoked (step e s) <= invoked s + wakes [e])%nat.
Proof.
  destruct s as [tm d lt pl n], e; unfold wakes; simpl; unfold wake, loop_head; simpl;
    destruct pl, d; simpl; lia.
Qed.

Lemma wakes_cons e evs : wakes (e :: evs) = (wakes [e] + wakes evs)%nat.
Proof. unfold wakes. simpl. destruct e; reflexivity. Qed.

End MoreIntervalFacts.

(** X7.  In exact arithmetic, an interval reports the period it was last
    given: [getTimeout()] returns the milliseconds passed to
    [setInterval], or to the latest [setTimeout], whatever else has
    happened to the interval since.  (On binary64 the two conversions
    can differ from the period in the last digit.) *)
Theorem interval_getTimeout_round_trip :
  (forall periodMs now evs,
     Props.keeps_timeout evs ->
     Scheduler.Interval.getTimeout
       (Scheduler.Interval.run evs (Scheduler.Interval.setInterval periodMs now))
     == periodMs)
  /\ (forall s ms evs,
        Props.keeps_timeout evs ->
        Scheduler.Interval.getTimeout
          (Scheduler.Interval.run evs
             (Scheduler.Interval.step (Scheduler.SetTimeout ms) s))
        == ms).
Proof.
  split.
  - intros periodMs now evs Hk. unfold Scheduler.Interval.getTimeout.
    rewrite (interval_keeps_timeout evs _ Hk). simpl.
    unfold Scheduler.msToS, Scheduler.sToMs, Time.convert. simpl. field.
  - intros s ms evs Hk. unfold Scheduler.Interval.getTimeout.
    rewrite (interval_keeps_timeout evs _ Hk). simpl.
    unfold Scheduler.msToS, Scheduler.sToMs, Time.convert. simpl. field.
Qed.

Lemma interval_getTimeout_round_trip_witness :
  Props.keeps_timeout [Scheduler.Wake; Scheduler.Return 2; Scheduler.Destroy]
  /\ Scheduler.Interval.getTimeout
       (Scheduler.Interval.run
          [Scheduler.Wake; Scheduler.Return 2; Scheduler.Destroy]
          (Scheduler.Interval.setInterval 250 1))
     == 250.
Proof.
  assert (H : Props.keeps_timeout
                [Scheduler.Wake; Scheduler.Return 2; Scheduler.Destroy]).
  { repeat constructor. }
  split; [exact H | exact (proj1 interval_getTimeout_round_trip 250 1 _ H)].
Defined.

(** X8.  In exact arithmetic: during the first wait of an interval of
    [periodMs] milliseconds started at clock [t0], [getRemaining()] at
    clock [now] is the period less the milliseconds gone by since [t0],
    and 0 once that would be negative.  (On binary64 the conversions can
    change the last digit.) *)
Theorem interval_getRemaining_counts_down periodMs t0 now :
  Scheduler.Interval.getRemaining now (Scheduler.Interval.setInterval periodMs t0)
  == Qmax 0 (periodMs - 1000 * (now - t0)).
Proof.
  unfold Scheduler.Interval.getRemaining. simpl.
  unfold Scheduler.msToS, Scheduler.sToMs, Time.convert, Time.diff. simpl.
  set (x := periodMs * (1 # 1000) / 1 - (now - t0)).
  set (y := periodMs - 1000 * (now - t0)).
  assert (E : 1000 * x == y) by (subst x y; field).
  destruct (Qlt_le_dec y 0) as [H | H].
  - rewrite (Q.max_l 0 y) by lra. rewrite (Q.max_l 0 x) by lra. field.
  - rewrite (Q.max_r 0 y) by lra. rewrite (Q.max_r 0 x) by lra.
    rewrite <- E. field.
Qed.

(** X9.  An interval that is left running invokes its callback once per
    completed wait: after [k] cycles the callback has run [k] times, the
    interval is not destroyed, and it waits again for the same period,
    the cycle recorded being the one begun when the last callback
    returned. *)
Theorem interval_invokes_once_per_cycle periodMs now returns :
  Scheduler.Interval.invoked
    (Scheduler.Interval.run (Props.cycles returns)
       (Scheduler.Interval.setInterval periodMs now))
  = length returns
  /\ Scheduler.Interval.destroyed
       (Scheduler.Interval.run (Props.cycles returns)
          (Scheduler.Interval.setInterval periodMs now)) = false
  /\ Scheduler.Interval.at_
       (Scheduler.Interval.run (Props.cycles returns)
          (Scheduler.Interval.setInterval periodMs now))
     = Scheduler.Waiting (Scheduler.sToMs periodMs)
  /\ Scheduler.Interval.latest
       (Scheduler.Interval.run (Props.cycles returns)
          (Scheduler.Interval.setInterval periodMs now))
     = Some {| Scheduler.Interval.c_timeout := Scheduler.sToMs periodMs;
               Scheduler.Interval.c_start := default now (last returns) |}.
Proof.
  destruct (interval_cycles returns (Scheduler.Interval.setInterval periodMs now)
              (Scheduler.sToMs periodMs) eq_refl eq_refl)
    as (Hn & Hd & _ & Hw & Hl).
  split; [exact Hn|]. split; [exact Hd|].
  destruct returns as [|t returns]; [repeat split|].
  split; [apply Hw; discriminate|].
  destruct (last (t :: returns)) as [t'|] eqn:E.
  - apply Hl. reflexivity.
  - apply last_None in E. discriminate.
Qed.

(** X10.  [setIntervalNow] calls the callback once at once and then once
    per completed wait: [k + 1] times after [k] cycles; destroyed straight
    away, the interval has run its callback exactly once, whatever
    happens afterwards. *)
Theorem setIntervalNow_invokes_at_once periodMs now :
  (forall returns,
     Scheduler.Interval.invoked
       (Scheduler.Interval.run (Props.cycles returns)
          (Scheduler.Interval.setIntervalNow periodMs now))
     = S (length returns))
  /\ (forall evs,
        Scheduler.Interval.invoked
          (Scheduler.Interval.run (Scheduler.Destroy :: evs)
             (Scheduler.Interval.setIntervalNow periodMs now))
        = 1%nat).
Proof.
  split.
  - intros returns.
    destruct (interval_cycles returns
                (Scheduler.Interval.setIntervalNow periodMs now)
                (Scheduler.sToMs periodMs) eq_refl eq_refl) as (Hn & _).
    exact Hn.
  - intros evs.
    destruct (interval_destroyed_run evs
                (Scheduler.Interval.step Scheduler.Destroy
                   (Scheduler.Interval.setIntervalNow periodMs now)) eq_refl)
      as [_ Hn].
    exact Hn.
Qed.

(** X11.  An interval never invokes its callback without the host having
    resumed its task: over any sequence of events the number of
    invocations grows by at most the number of resumptions. *)
Theorem interval_invocations_bounded_by_wakes s evs :
  (Scheduler.Interval.invoked (Scheduler.Interval.run evs s)
   <= Scheduler.Interval.invoked s + Props.wakes evs)%nat.
Proof.
  revert s. induction evs as [|e evs IH]; intros s.
  - unfold Props.wakes. simpl. lia.
  - change (Scheduler.Interval.run (e :: evs) s)
      with (Scheduler.Interval.run evs (Scheduler.Interval.step e s)).
    specialize (IH (Scheduler.Interval.step e s)).
    pose proof (interval_invoked_step e s) as Hs.
    rewrite (wakes_cons e evs). lia.
Qed.

(** ** Scheduler: more on timeouts *)

Section MoreTimeoutFacts.

Import Time Scheduler Scheduler.Timeout Props.

Lemma timeout_constant evs : forall s, timeout (run evs s) = timeout s.
Proof.
  induction evs as [|e evs IH]; intros s; [reflexivity|].
  change (run (e :: evs) s) with (run evs (step e s)). rewrite IH.
  destruct s as [tm st d ex pl n], e; simpl; destruct pl, d; reflexivity.
Qed.

Lemma start_cleared_step e s : start s = None -> start (step e s) = None.
Proof.
  destruct s as [tm st d ex pl n], e; simpl; intros ->; destruct pl, d; reflexivity.
Qed.

Lemma start_cleared_run evs : forall s, start s = None -> start (run evs s) = None.
Proof.
  induction evs as [|e evs IH]; intros s Hs; [exact Hs|].
  apply (IH (step e s)), start_cleared_step, Hs.
Qed.

(** Waiting, or the start timestamp already cleared. *)
Lemma waiting_or_cleared_step e s :
  (exists d, at_ s = Waiting d) \/ start s = None ->
  ((exists d, at_ (step e s) = Waiting d) \/ start (step e s) = None)
  /\ (e = Wake -> start (step e s) = None).
Proof.
  destruct s as [tm st d ex pl n], e; simpl; intros [[d' H] | H]; subst;
    try destruct pl; try destruct d; simpl;
    (split; [eauto | try reflexivity; try discriminate; eauto]).
Qed.

Lemma start_cleared_after_wake evs : forall s,
  (exists d, at_ s = Waiting d) \/ start s = None ->
  In Wake evs -> start (run evs s) = None.
Proof.
  induction evs as [|e evs IH]; intros s Hs Hin; [destruct Hin|].
  destruct (waiting_or_cleared_step e s Hs) as [Hs' Hw].
  change (run (e :: evs) s) with (run evs (step e s)).
  destruct Hin as [-> | Hin].
  - apply start_cleared_run, Hw. reflexivity.
  - apply IH; assumption.
Qed.

End MoreTimeoutFacts.

(** X12.  In exact arithmetic, a timeout reports the delay it was created
    with: [getTimeout()] returns the milliseconds passed to [setTimeout],
    at any time in the life of the timeout.  (On binary64 the two
    conversions can differ from the delay in the last digit.) *)
Theorem timeout_getTimeout_round_trip delayMs now evs :
  Scheduler.Timeout.getTimeout
    (Scheduler.Timeout.run evs (Scheduler.Timeout.setTimeout delayMs now))
  == delayMs.
Proof.
  unfold Scheduler.Timeout.getTimeout. rewrite timeout_constant. simpl.
  unfold Scheduler.msToS, Scheduler.sToMs, Time.convert. simpl. field.
Qed.

(** X13.  [getRemaining()] of a timeout is never negative, and it is 0
    from the moment the host has resumed the task, whether the callback
    then ran or the timeout had been destroyed. *)
Theorem timeout_getRemaining_zero_after_wake delayMs t0 evs now :
  0 <= Scheduler.Timeout.getRemaining now
         (Scheduler.Timeout.run evs (Scheduler.Timeout.setTimeout delayMs t0))
  /\ (In Scheduler.Wake evs ->
      Scheduler.Timeout.getRemaining now
        (Scheduler.Timeout.run evs (Scheduler.Timeout.setTimeout delayMs t0))
      = 0).
Proof.
  split.
  - unfold Scheduler.Timeout.getRemaining.
    destruct (Scheduler.is_falsy _); [lra|].
    destruct (Scheduler.Timeout.start _); [|lra].
    unfold Scheduler.msToS, Time.convert. simpl.
    pose proof (Q.le_max_l 0
                  (Scheduler.Timeout.timeout
                     (Scheduler.Timeout.run evs
                        (Scheduler.Timeout.setTimeout delayMs t0))
                   - Time.diff q now)) as Hm.
    apply Qle_shift_div_l; [reflexivity | lra].
  - intros Hin. unfold Scheduler.Timeout.getRemaining.
    rewrite (start_cleared_after_wake evs
               (Scheduler.Timeout.setTimeout delayMs t0)); [reflexivity | | exact Hin].
    left. eexists. reflexivity.
Qed.

Lemma timeout_getRemaining_zero_after_wake_witness :
  In Scheduler.Wake [Scheduler.Destroy; Scheduler.Wake]
  /\ Scheduler.Timeout.getRemaining 5
       (Scheduler.Timeout.run [Scheduler.Destroy; Scheduler.Wake]
          (Scheduler.Timeout.setTimeout 100 4))
     = 0.
Proof.
  assert (H : In Scheduler.Wake [Scheduler.Destroy; Scheduler.Wake]).
  { right. left. reflexivity. }
  split; [exact H|].
  exact (proj2 (timeout_getRemaining_zero_after_wake 100 4 _ 5) H).
Defined.

(** ** Throttle: more *)

(** The attempt that follows a pass. *)
Lemma tryPass_after_pass th now1 now2 :
  ~ now1 == 0 ->
  fst (RateLimit.Throttle.tryPass now1 th) = true ->
  (now2 - now1 < RateLimit.Throttle.timeoutSeconds th ->
   RateLimit.Throttle.tryPass now2 (snd (RateLimit.Throttle.tryPass now1 th))
   = (false, snd (RateLimit.Throttle.tryPass now1 th)))
  /\ (RateLimit.Throttle.timeoutSeconds th <= now2 - now1 ->
      fst (RateLimit.Throttle.tryPass now2
             (snd (RateLimit.Throttle.tryPass now1 th))) = true
      /\ RateLimit.Throttle.lastPass
           (snd (RateLimit.Throttle.tryPass now2
                   (snd (RateLimit.Throttle.tryPass now1 th))))
         = Some now2).
Proof.
  intros Hz Hp.
  rewrite tryPass_fst in Hp.
  assert (Hl : RateLimit.Throttle.locked th = false).
  { apply canPass_true in Hp. tauto. }
  set (th1 := {| RateLimit.Throttle.timeoutSeconds := RateLimit.Throttle.timeoutSeconds th;
                 RateLimit.Throttle.lastPass := Some now1;
                 RateLimit.Throttle.locked := RateLimit.Throttle.locked th |}).
  assert (Hsnd : snd (RateLimit.Throttle.tryPass now1 th) = th1).
  { unfold RateLimit.Throttle.tryPass. rewrite Hp. reflexivity. }
  rewrite Hsnd.
  assert (Hc : RateLimit.Throttle.canPass now2 th1 = true
               <-> RateLimit.Throttle.timeoutSeconds th <= now2 - now1).
  { rewrite canPass_true. subst th1. simpl. split.
    - intros [_ [Hf | (lp & [= <-] & H)]]; [|exact H].
      apply Qeq_bool_iff in Hf. contradiction.
    - intros H. split; [exact Hl|]. right. exists now1. split; [reflexivity | exact H]. }
  split.
  - intros Hlt. unfold RateLimit.Throttle.tryPass.
    destruct (RateLimit.Throttle.canPass now2 th1) eqn:E; [|reflexivity].
    destruct Hc as [Hc _]. specialize (Hc eq_refl). lra.
  - intros Hge. apply Hc in Hge. unfold RateLimit.Throttle.tryPass.
    rewrite Hge. simpl. split; reflexivity.
Qed.

Lemma new_timeoutSeconds timeoutMs :
  RateLimit.Throttle.timeoutSeconds (RateLimit.Throttle.new timeoutMs)
  == timeoutMs / 1000.
Proof. unfold RateLimit.Throttle.new, RateLimit.Throttle.setTimeout, Time.convert. simpl. field. Qed.

(** X14.  After a pass made at a clock reading other than 0, the
    throttle refuses every attempt made before the window has gone by,
    leaving itself unchanged, and lets through the first attempt made
    once the window has gone by, recording its time. *)
Theorem throttle_window_between_passes th now1 now2 :
  ~ now1 == 0 ->
  fst (RateLimit.Throttle.tryPass now1 th) = true ->
  (now2 - now1 < RateLimit.Throttle.timeoutSeconds th ->
   RateLimit.Throttle.tryPass now2 (snd (RateLimit.Throttle.tryPass now1 th))
   = (false, snd (RateLimit.Throttle.tryPass now1 th)))
  /\ (RateLimit.Throttle.timeoutSeconds th <= now2 - now1 ->
      fst (RateLimit.Throttle.tryPass now2
             (snd (RateLimit.Throttle.tryPass now1 th))) = true
      /\ RateLimit.Throttle.lastPass
           (snd (RateLimit.Throttle.tryPass now2
                   (snd (RateLimit.Throttle.tryPass now1 th))))
         = Some now2).
Proof. apply tryPass_after_pass. Qed.

Lemma throttle_window_between_passes_witness :
  (~ 10 == 0
   /\ fst (RateLimit.Throttle.tryPass 10 (RateLimit.Throttle.new 2000)) = true
   /\ 11 - 10 < RateLimit.Throttle.timeoutSeconds (RateLimit.Throttle.new 2000))
  /\ RateLimit.Throttle.tryPass 11
       (snd (RateLimit.Throttle.tryPass 10 (RateLimit.Throttle.new 2000)))
     = (false, snd (RateLimit.Throttle.tryPass 10 (RateLimit.Throttle.new 2000))).
Proof.
  assert (H1 : ~ 10 == 0) by discriminate.
  assert (H2 : fst (RateLimit.Throttle.tryPass 10 (RateLimit.Throttle.new 2000)) = true)
    by reflexivity.
  assert (H3 : 11 - 10 < RateLimit.Throttle.timeoutSeconds (RateLimit.Throttle.new 2000))
    by reflexivity.
  split; [split; [exact H1 | split; [exact H2 | exact H3]]|].
  exact (proj1 (throttle_window_between_passes (RateLimit.Throttle.new 2000) 10 11 H1 H2) H3).
Defined.

(** X15.  A throttle that has never passed, or whose last pass was reset,
    passes at the next attempt exactly when it is not locked, whatever
    the clock and the window. *)
Theorem throttle_passes_when_never_passed now :
  (forall timeoutMs,
     fst (RateLimit.Throttle.tryPass now (RateLimit.Throttle.new timeoutMs)) = true)
  /\ (forall th,
        fst (RateLimit.Throttle.tryPass now (RateLimit.Throttle.resetLastPass th))
        = negb (RateLimit.Throttle.locked th)).
Proof.
  split.
  - intros timeoutMs. reflexivity.
  - intros th. rewrite tryPass_fst. unfold RateLimit.Throttle.canPass. simpl.
    destruct (RateLimit.Throttle.locked th); reflexivity.
Qed.

(** X16.  With a window of zero or less, an unlocked throttle passes at
    every attempt made no earlier than its last pass. *)
Theorem throttle_without_window_always_passes th now :
  RateLimit.Throttle.timeoutSeconds th <= 0 ->
  (forall lp, RateLimit.Throttle.lastPass th = Some lp -> lp <= now) ->
  fst (RateLimit.Throttle.tryPass now th) = negb (RateLimit.Throttle.locked th).
Proof.
  intros Hw Hlp. rewrite tryPass_fst.
  destruct (RateLimit.Throttle.locked th) eqn:Hl.
  - unfold RateLimit.Throttle.canPass. rewrite Hl. reflexivity.
  - apply canPass_true. split; [exact Hl|].
    destruct (RateLimit.Throttle.lastPass th) as [lp|] eqn:E; [|left; reflexivity].
    right. exists lp. split; [reflexivity|].
    specialize (Hlp lp eq_refl). lra.
Qed.

Lemma throttle_without_window_always_passes_witness :
  (RateLimit.Throttle.timeoutSeconds
     (snd (RateLimit.Throttle.tryPass 7 (RateLimit.Throttle.new 0))) <= 0
   /\ (forall lp,
         RateLimit.Throttle.lastPass
           (snd (RateLimit.Throttle.tryPass 7 (RateLimit.Throttle.new 0))) = Some lp ->
         lp <= 7))
  /\ fst (RateLimit.Throttle.tryPass 7
            (snd (RateLimit.Throttle.tryPass 7 (RateLimit.Throttle.new 0))))
     = true.
Proof.
  assert (H1 : RateLimit.Throttle.timeoutSeconds
                 (snd (RateLimit.Throttle.tryPass 7 (RateLimit.Throttle.new 0))) <= 0)
    by discriminate.
  assert (H2 : forall lp,
             RateLimit.Throttle.lastPass
               (snd (RateLimit.Throttle.tryPass 7 (RateLimit.Throttle.new 0))) = Some lp ->
             lp <= 7).
  { intros lp E. simpl in E. injection E as <-. discriminate. }
  split; [split; [exact H1 | exact H2]|].
  exact (throttle_without_window_always_passes _ 7 H1 H2).
Defined.

(** ** Debounce: more *)

Section MoreDebounceFacts.

Import Time Scheduler RateLimit.Debounce Props.

Context {A : Type}.

Lemma inert_destroy tm : inert tm -> inert (Timeout.destroy tm).
Proof. unfold inert. destruct tm as [t s d e [] n]; simpl; auto. Qed.

Lemma pending_destroy tm : pending_timer tm -> inert (Timeout.destroy tm).
Proof.
  unfold inert, pending_timer. destruct tm as [t s d e [] n]; simpl; auto.
  all: intros [[? H] _]; discriminate H.
Qed.

Lemma inert_wake tm :
  inert tm -> inert (Timeout.wake tm) /\ Timeout.at_ (Timeout.wake tm) <> InCallback.
Proof.
  unfold inert, Timeout.wake. destruct tm as [t s d e [] n]; simpl.
  - intros ->. simpl. split; [exact I | discriminate].
  - intros [].
  - intros _. split; [exact I | discriminate].
Qed.

Lemma pending_wake tm :
  pending_timer tm -> Timeout.at_ (Timeout.wake tm) = InCallback.
Proof.
  unfold pending_timer, Timeout.wake.
  destruct tm as [t s d e [] n]; simpl; intros ([? H] & -> & _);
    try discriminate H; reflexivity.
Qed.

Lemma fired_inert tm :
  Timeout.at_ tm = InCallback ->
  inert (Timeout.finish (Timeout.destroy (Timeout.destroy tm))).
Proof. unfold inert. destruct tm as [t s d e [] n]; simpl; intros H; try discriminate H; exact I. Qed.

Lemma lookup_alter_Some {B} (f : B -> B) (l : list B) h j y :
  alter f h l !! j = Some y ->
  exists x, l !! j = Some x /\ y = (if decide (h = j) then f x else x).
Proof.
  rewrite list_lookup_alter. destruct (decide (h = j)) as [->|Hne].
  - destruct (l !! j) as [x|]; simpl; [|discriminate].
    intros [= <-]. exists x. split; reflexivity.
  - intros H. exists y. split; [exact H | reflexivity].
Qed.

(** [clear] leaves only inert timeouts and holds nothing. *)
Lemma destroy_scheduler_inert w :
  debounce_inv w ->
  forall j tm, destroy_scheduler A w !! j = Some tm -> inert tm.
Proof.
  unfold debounce_inv, destroy_scheduler. intros Hinv j tm Hj.
  destruct (scheduler A (self A w)) as [h|], (scheduled A (self A w)) as [a|];
    try contradiction; [|eapply Hinv; exact Hj].
  destruct Hinv as [(tm0 & Hh & Hp) Hothers].
  apply lookup_alter_Some in Hj. destruct Hj as (x & Hx & ->).
  destruct (decide (h = j)) as [->|Hne].
  - rewrite Hh in Hx. injection Hx as <-. apply pending_destroy, Hp.
  - eapply Hothers; [|exact Hx]. congruence.
Qed.

Lemma clear_inv w : debounce_inv w -> debounce_inv (clear A w).
Proof. intros Hinv. unfold debounce_inv. simpl. apply destroy_scheduler_inert, Hinv. Qed.

Lemma flush_inv w : debounce_inv w -> debounce_inv (flush A w).
Proof.
  intros Hinv. unfold flush.
  destruct (scheduled A (self A w)) as [a|] eqn:Ea; [|exact Hinv].
  unfold debounce_inv. simpl. intros j tm Hj.
  unfold destroy_scheduler in Hj at 1. simpl in Hj.
  destruct (scheduler A (self A w)) as [h|] eqn:Eh.
  - apply lookup_alter_Some in Hj. destruct Hj as (x & Hx & ->).
    pose proof (destroy_scheduler_inert w Hinv j x Hx) as Hi.
    destruct (decide (h = j)); [apply inert_destroy, Hi | exact Hi].
  - eapply (destroy_scheduler_inert w Hinv). exact Hj.
Qed.

Lemma schedule_inv call now w : debounce_inv w -> debounce_inv (schedule A call now w).
Proof.
  intros Hinv. pose proof (destroy_scheduler_inert w Hinv) as Hq.
  unfold debounce_inv, schedule. simpl. split.
  - eexists. split; [apply list_lookup_middle; reflexivity|].
    split; [eexists; reflexivity | split; reflexivity].
  - intros j tm Hne Hj. apply lookup_snoc_Some in Hj.
    destruct Hj as [[_ Hj] | [Hj _]]; [eapply Hq; exact Hj | contradiction].
Qed.

(** What a resumption does, by cases on the timeout resumed. *)
Lemma resume_cases h w :
  debounce_inv w ->
  debounce_inv (resume A h w)
  /\ (scheduler A (self A w) = Some h ->
      exists call, scheduled A (self A w) = Some call
        /\ spawned A (resume A h w) = spawned A w ++ [call]
        /\ scheduled A (self A (resume A h w)) = None
        /\ scheduler A (self A (resume A h w)) = None)
  /\ (scheduler A (self A w) <> Some h ->
      spawned A (resume A h w) = spawned A w
      /\ self A (resume A h w) = self A w).
Proof.
  intros Hinv. unfold resume.
  destruct (timers A w !! h) as [tm|] eqn:Eh.
  2:{ split; [exact Hinv|]. split; [|auto].
      intros Hs. unfold debounce_inv in Hinv. rewrite Hs in Hinv.
      destruct (scheduled A (self A w)); [|contradiction].
      destruct Hinv as [(tm0 & Hh & _) _]. congruence. }
  destruct (decide (scheduler A (self A w) = Some h)) as [Hs | Hs].
  - (* the timeout of the latest schedule *)
    unfold debounce_inv in Hinv. rewrite Hs in Hinv.
    destruct (scheduled A (self A w)) as [call|] eqn:Ec; [|contradiction].
    destruct Hinv as [(tm0 & Hh & Hp) Hothers].
    rewrite Eh in Hh. injection Hh as <-.
    pose proof (pending_wake tm Hp) as Hw.
    destruct Hp as ([d Hd] & Hp).
    rewrite Hd, Hw. unfold flush. simpl. rewrite Ec. simpl.
    split; [|split; [|intros Hn; contradiction]].
    + unfold debounce_inv. simpl. intros j x Hj.
      unfold destroy_scheduler in Hj. simpl in Hj. rewrite Hs in Hj. simpl in Hj.
      apply lookup_alter_Some in Hj. destruct Hj as (x1 & Hj & ->).
      apply lookup_alter_Some in Hj. destruct Hj as (x2 & Hj & ->).
      apply lookup_alter_Some in Hj. destruct Hj as (x3 & Hj & ->).
      apply list_lookup_insert_Some in Hj.
      destruct (decide (h = j)) as [->|Hne].
      * destruct Hj as [(_ & <- & _) | [Hne _]]; [|contradiction].
        apply fired_inert, Hw.
      * destruct Hj as [(-> & _) | [_ Hj]]; [contradiction|].
        eapply Hothers; [|exact Hj]. congruence.
    + intros _. exists call. repeat split.
  - (* any other timeout *)
    assert (Hi : inert tm).
    { unfold debounce_inv in Hinv.
      destruct (scheduler A (self A w)) as [h'|], (scheduled A (self A w));
        try contradiction.
      - destruct Hinv as [_ Hothers]. eapply Hothers; [|exact Eh]. congruence.
      - eapply Hinv. exact Eh. }
    destruct (inert_wake tm Hi) as [Hi' Hnc].
    destruct (Timeout.at_ tm) eqn:Ep.
    2,3: split; [exact Hinv | split; [intros; contradiction | auto]].
    destruct (Timeout.at_ (Timeout.wake tm)) eqn:Ew; [| contradiction |].
    all: split; [|split; [intros; contradiction | simpl; auto]].
    all: unfold debounce_inv in *; simpl.
    all: destruct (scheduler A (self A w)) as [h'|], (scheduled A (self A w));
      try contradiction.
    all: try (destruct Hinv as [(tm0 & Hh & Hp) Hothers]; split;
      [ exists tm0; split; [|exact Hp];
        rewrite list_lookup_insert_ne by congruence; exact Hh
      | intros j x Hne Hj; apply list_lookup_insert_Some in Hj;
        destruct Hj as [(-> & <- & _) | [_ Hj]];
        [exact Hi' | eapply Hothers; [exact Hne | exact Hj]] ]).
    all: intros j x Hj; apply list_lookup_insert_Some in Hj;
      destruct Hj as [(-> & <- & _) | [_ Hj]];
      [exact Hi' | eapply Hinv; exact Hj].
Qed.

Lemma perform_inv act w : debounce_inv w -> debounce_inv (perform A act w).
Proof.
  intros Hinv. destruct act; simpl.
  - apply schedule_inv, Hinv.
  - apply clear_inv, Hinv.
  - apply flush_inv, Hinv.
  - exact Hinv.
  - apply resume_cases, Hinv.
Qed.

Lemma perform_all_inv acts : forall w,
  debounce_inv w -> debounce_inv (perform_all A acts w).
Proof.
  induction acts as [|act acts IH]; intros w Hinv; [exact Hinv|].
  apply (IH (perform A act w)), perform_inv, Hinv.
Qed.

Lemma new_inv d : debounce_inv (new A d).
Proof. unfold debounce_inv. simpl. intros j tm Hj. destruct j; discriminate Hj. Qed.

(** A debounce that holds nothing calls nothing, whatever is resumed. *)
Lemma idle_resume_all hs : forall w,
  debounce_inv w -> scheduler A (self A w) = None ->
  spawned A (resume_all A hs w) = spawned A w.
Proof.
  induction hs as [|h hs IH]; intros w Hinv Hs; [reflexivity|].
  destruct (resume_cases h w Hinv) as (Hinv' & _ & Hother).
  destruct Hother as [Hsp Hself]; [congruence|].
  change (resume_all A (h :: hs) w) with (resume_all A hs (resume A h w)).
  rewrite IH; [exact Hsp | exact Hinv' | congruence].
Qed.

(** The calls made and the call held, after one action. *)
Lemma perform_calls act w :
  match act with
  | Schedule _ call _ =>
      spawned A (perform A act w) = spawned A w /\ held (perform A act w) = [call]
  | _ =>
      spawned A (perform A act w) ++ held (perform A act w) = spawned A w ++ held w
      \/ (spawned A (perform A act w) = spawned A w /\ held (perform A act w) = [])
  end.
Proof.
  destruct act as [call now | | | ms | h]; simpl.
  - split; reflexivity.
  - right. split; reflexivity.
  - unfold flush, held. destruct (scheduled A (self A w)) as [call|] eqn:E; simpl.
    + left. rewrite app_nil_r. reflexivity.
    + left. rewrite E. reflexivity.
  - left. reflexivity.
  - unfold resume.
    destruct (timers A w !! h) as [tm|]; [|left; reflexivity].
    destruct (Timeout.at_ tm); try (left; reflexivity).
    destruct (Timeout.at_ (Timeout.wake tm)); try (left; reflexivity).
    unfold flush, held. simpl.
    destruct (scheduled A (self A w)) as [call|] eqn:E; simpl.
    + left. rewrite app_nil_r. reflexivity.
    + left. rewrite E. reflexivity.
Qed.

Lemma perform_all_calls acts : forall w calls,
  spawned A w ++ held w `sublist_of` calls ->
  spawned A (perform_all A acts w) ++ held (perform_all A acts w)
    `sublist_of` calls ++ scheduled_calls A acts.
Proof.
  induction acts as [|act acts IH]; intros w calls Hsub.
  - simpl. rewrite app_nil_r. exact Hsub.
  - change (perform_all A (act :: acts) w)
      with (perform_all A acts (perform A act w)).
    assert (Hsp : spawned A w `sublist_of` calls).
    { etransitivity; [|exact Hsub]. apply sublist_inserts_r. reflexivity. }
    pose proof (perform_calls act w) as Hact.
    destruct act as [call now | | | ms | h].
    1:{ destruct Hact as [H1 H2].
        change (scheduled_calls A (Schedule A call now :: acts))
          with (call :: scheduled_calls A acts).
        replace (calls ++ call :: scheduled_calls A acts)
          with ((calls ++ [call]) ++ scheduled_calls A acts)
          by (rewrite <- app_assoc; reflexivity).
        apply IH. rewrite H1, H2. apply sublist_app; [exact Hsp | reflexivity]. }
    all: change (scheduled_calls A (_ :: acts)) with (scheduled_calls A acts).
    all: apply IH.
    all: destruct Hact as [-> | [-> ->]]; [exact Hsub | rewrite app_nil_r; exact Hsp].
Qed.

End MoreDebounceFacts.

(** X17.  Whatever is done with a debounce (schedule, clear, flush,
    change of delay, timeouts resumed in any order), the calls it has
    made followed by the call it still holds are calls that were
    scheduled, in the order they were scheduled, each at most once:
    nothing is called twice, nothing unscheduled is called. *)
Theorem debounce_calls_follow_schedule {A : Type} (delay : Q)
    (acts : list (RateLimit.Debounce.action A)) :
  RateLimit.Debounce.spawned A
    (RateLimit.Debounce.perform_all A acts (RateLimit.Debounce.new A delay))
  ++ Props.held
       (RateLimit.Debounce.perform_all A acts (RateLimit.Debounce.new A delay))
  `sublist_of` RateLimit.Debounce.scheduled_calls A acts.
Proof.
  apply (perform_all_calls acts (RateLimit.Debounce.new A delay) []).
  reflexivity.
Qed.

(** X18.  In a debounce, however it was used before, resuming a timeout
    calls something only if it is the timeout of the latest [schedule]
    and that schedule is still held; it then spawns the held call, once,
    and the debounce holds nothing.  Resuming any other timeout, present
    or not, calls nothing and leaves the debounce as it is. *)
Theorem debounce_only_latest_timeout_fires {A : Type} (delay : Q)
    (acts : list (RateLimit.Debounce.action A)) (h : nat) :
  (RateLimit.Debounce.scheduler A
     (RateLimit.Debounce.self A
        (RateLimit.Debounce.perform_all A acts (RateLimit.Debounce.new A delay)))
   = Some h ->
   exists call,
     RateLimit.Debounce.scheduled A
       (RateLimit.Debounce.self A
          (RateLimit.Debounce.perform_all A acts (RateLimit.Debounce.new A delay)))
     = Some call
     /\ RateLimit.Debounce.spawned A
          (RateLimit.Debounce.resume A h
             (RateLimit.Debounce.perform_all A acts (RateLimit.Debounce.new A delay)))
        = RateLimit.Debounce.spawned A
            (RateLimit.Debounce.perform_all A acts (RateLimit.Debounce.new A delay))
          ++ [call]
     /\ RateLimit.Debounce.scheduled A
          (RateLimit.Debounce.self A
             (RateLimit.Debounce.resume A h
                (RateLimit.Debounce.perform_all A acts
                   (RateLimit.Debounce.new A delay))))
        = None)
  /\ (RateLimit.Debounce.scheduler A
        (RateLimit.Debounce.self A
           (RateLimit.Debounce.perform_all A acts (RateLimit.Debounce.new A delay)))
      <> Some h ->
      RateLimit.Debounce.spawned A
        (RateLimit.Debounce.resume A h
           (RateLimit.Debounce.perform_all A acts (RateLimit.Debounce.new A delay)))
      = RateLimit.Debounce.spawned A
          (RateLimit.Debounce.perform_all A acts (RateLimit.Debounce.new A delay))
      /\ RateLimit.Debounce.self A
           (RateLimit.Debounce.resume A h
              (RateLimit.Debounce.perform_all A acts (RateLimit.Debounce.new A delay)))
         = RateLimit.Debounce.self A
             (RateLimit.Debounce.perform_all A acts (RateLimit.Debounce.new A delay))).
Proof.
  destruct (resume_cases h
              (RateLimit.Debounce.perform_all A acts (RateLimit.Debounce.new A delay))
              (perform_all_inv acts _ (new_inv delay)))
    as (_ & Hlatest & Hother).
  split; [|exact Hother].
  intros Hs. destruct (Hlatest Hs) as (call & H1 & H2 & H3 & _).
  exists call. auto.
Qed.

Lemma debounce_only_latest_timeout_fires_witness :
  (RateLimit.Debounce.scheduler string
     (RateLimit.Debounce.self string
        (RateLimit.Debounce.perform_all string
           [RateLimit.Debounce.Schedule string "a" 0;
            RateLimit.Debounce.Schedule string "b" 1]
           (RateLimit.Debounce.new string 100)))
   = Some 1%nat
   /\ RateLimit.Debounce.scheduler string
        (RateLimit.Debounce.self string
           (RateLimit.Debounce.perform_all string
              [RateLimit.Debounce.Schedule string "a" 0;
               RateLimit.Debounce.Schedule string "b" 1]
              (RateLimit.Debounce.new string 100)))
      <> Some 0%nat)
  /\ (exists call,
        RateLimit.Debounce.spawned string
          (RateLimit.Debounce.resume string 1
             (RateLimit.Debounce.perform_all string
                [RateLimit.Debounce.Schedule string "a" 0;
                 RateLimit.Debounce.Schedule string "b" 1]
                (RateLimit.Debounce.new string 100)))
        = [] ++ [call])
  /\ RateLimit.Debounce.spawned string
       (RateLimit.Debounce.resume string 0
          (RateLimit.Debounce.perform_all string
             [RateLimit.Debounce.Schedule string "a" 0;
              RateLimit.Debounce.Schedule string "b" 1]
             (RateLimit.Debounce.new string 100)))
     = [].
Proof.
  split; [split; [reflexivity | discriminate]|]. split.
  - destruct (proj1 (debounce_only_latest_timeout_fires 100
                       [RateLimit.Debounce.Schedule string "a" 0;
                        RateLimit.Debounce.Schedule string "b" 1] 1%nat) eq_refl)
      as (call & _ & H & _).
    exists call. exact H.
  - apply (proj2 (debounce_only_latest_timeout_fires 100
                    [RateLimit.Debounce.Schedule string "a" 0;
                     RateLimit.Debounce.Schedule string "b" 1] 0%nat)).
    discriminate.
Defined.

(** X19.  [clear()] cancels: after it, however the debounce was used
    before, no resumption of any timeout makes a call, and nothing is
    scheduled. *)
Theorem debounce_clear_cancels {A : Type} (delay : Q)
    (acts : list (RateLimit.Debounce.action A)) (resumed : list nat) :
  RateLimit.Debounce.spawned A
    (RateLimit.Debounce.resume_all A resumed
       (RateLimit.Debounce.clear A
          (RateLimit.Debounce.perform_all A acts (RateLimit.Debounce.new A delay))))
  = RateLimit.Debounce.spawned A
      (RateLimit.Debounce.perform_all A acts (RateLimit.Debounce.new A delay))
  /\ RateLimit.Debounce.isScheduled A
       (RateLimit.Debounce.clear A
          (RateLimit.Debounce.perform_all A acts (RateLimit.Debounce.new A delay)))
     = false.
Proof.
  split; [|reflexivity].
  rewrite idle_resume_all; [reflexivity | | reflexivity].
  apply clear_inv, perform_all_inv, new_inv.
Qed.

(** X20.  [flush()] on a debounce that holds a call makes that call at
    once, and no later resumption of a timeout makes it again;
    on a debounce that holds nothing it does nothing. *)
Theorem debounce_flush_calls_once {A : Type} (delay : Q)
    (acts : list (RateLimit.Debounce.action A)) (resumed : list nat) :
  (forall call,
     RateLimit.Debounce.scheduled A
       (RateLimit.Debounce.self A
          (RateLimit.Debounce.perform_all A acts (RateLimit.Debounce.new A delay)))
     = Some call ->
     RateLimit.Debounce.spawned A
       (RateLimit.Debounce.resume_all A resumed
          (RateLimit.Debounce.flush A
             (RateLimit.Debounce.perform_all A acts (RateLimit.Debounce.new A delay))))
     = RateLimit.Debounce.spawned A
         (RateLimit.Debounce.perform_all A acts (RateLimit.Debounce.new A delay))
       ++ [call])
  /\ (RateLimit.Debounce.scheduled A
        (RateLimit.Debounce.self A
           (RateLimit.Debounce.perform_all A acts (RateLimit.Debounce.new A delay)))
      = None ->
      RateLimit.Debounce.flush A
        (RateLimit.Debounce.perform_all A acts (RateLimit.Debounce.new A delay))
      = RateLimit.Debounce.perform_all A acts (RateLimit.Debounce.new A delay)).
Proof.
  set (w := RateLimit.Debounce.perform_all A acts (RateLimit.Debounce.new A delay)).
  assert (Hinv : Props.debounce_inv w) by apply perform_all_inv, new_inv.
  split.
  - intros call Hc.
    rewrite idle_resume_all.
    + unfold RateLimit.Debounce.flush. rewrite Hc. reflexivity.
    + apply flush_inv, Hinv.
    + unfold RateLimit.Debounce.flush. rewrite Hc. reflexivity.
  - intros Hn. unfold RateLimit.Debounce.flush. rewrite Hn. reflexivity.
Qed.

Lemma debounce_flush_calls_once_witness :
  RateLimit.Debounce.scheduled string
    (RateLimit.Debounce.self string
       (RateLimit.Debounce.perform_all string
          [RateLimit.Debounce.Schedule string "a" 0]
          (RateLimit.Debounce.new string 100)))
  = Some "a"
  /\ RateLimit.Debounce.spawned string
       (RateLimit.Debounce.resume_all string [0%nat; 0%nat]
          (RateLimit.Debounce.flush string
             (RateLimit.Debounce.perform_all string
                [RateLimit.Debounce.Schedule string "a" 0]
                (RateLimit.Debounce.new string 100))))
     = [] ++ ["a"].
Proof.
  split; [reflexivity|].
  exact (proj1 (debounce_flush_calls_once 100
                  [RateLimit.Debounce.Schedule string "a" 0] [0%nat; 0%nat])
           "a" eq_refl).
Defined.

(** X21.  [isScheduled()] tells whether the debounce holds a call, and
    [getRemainingTimeout()] returns nothing exactly when it holds none,
    however the debounce was used before. *)
Theorem debounce_isScheduled_iff_held {A : Type} (delay : Q)
    (acts : list (RateLimit.Debounce.action A)) (now : Q) :
  RateLimit.Debounce.isScheduled A
    (RateLimit.Debounce.perform_all A acts (RateLimit.Debounce.new A delay))
  = bool_decide
      (is_Some
         (RateLimit.Debounce.scheduled A
            (RateLimit.Debounce.self A
               (RateLimit.Debounce.perform_all A acts
                  (RateLimit.Debounce.new A delay)))))
  /\ (RateLimit.Debounce.getRemainingTimeout A now
        (RateLimit.Debounce.perform_all A acts (RateLimit.Debounce.new A delay))
      = None
      <-> RateLimit.Debounce.scheduled A
            (RateLimit.Debounce.self A
               (RateLimit.Debounce.perform_all A acts
                  (RateLimit.Debounce.new A delay)))
          = None).
Proof.
  set (w := RateLimit.Debounce.perform_all A acts (RateLimit.Debounce.new A delay)).
  assert (Hinv : Props.debounce_inv w) by apply perform_all_inv, new_inv.
  unfold Props.debounce_inv in Hinv.
  unfold RateLimit.Debounce.isScheduled, RateLimit.Debounce.getRemainingTimeout,
    Scheduler.Timeout.hasExecuted.
  destruct (RateLimit.Debounce.scheduler A (RateLimit.Debounce.self A w)) as [h|],
    (RateLimit.Debounce.scheduled A (RateLimit.Debounce.self A w)) as [call|];
    try contradiction.
  - destruct Hinv as [(tm & -> & _ & _ & ->) _]. simpl.
    split; [reflexivity | split; discriminate].
  - split; [reflexivity | split; reflexivity].
Qed.

(** ** Throttle.wrap *)

(** X22.  A function wrapped by [Throttle.wrap] runs at the first call;
    a second call made before the window has gone by is dropped, it
    returns nothing and does not run the function; a second call made
    once the window has gone by runs it again.  (The first call is made
    at a clock reading other than 0.) *)
Theorem throttle_wrap_drops_calls_in_window {A R : Type} (fn : A -> R)
    (timeoutMs : Q) (a1 a2 : A) (now1 now2 : Q) :
  ~ now1 == 0 ->
  (now2 - now1 < timeoutMs / 1000 ->
   fst (RateLimit.Throttle.wrap_calls fn [(a1, now1); (a2, now2)]
          (RateLimit.Throttle.new timeoutMs))
   = [Some (fn a1); None])
  /\ (timeoutMs / 1000 <= now2 - now1 ->
      fst (RateLimit.Throttle.wrap_calls fn [(a1, now1); (a2, now2)]
             (RateLimit.Throttle.new timeoutMs))
      = [Some (fn a1); Some (fn a2)]).
Proof.
  intros Hz.
  destruct (tryPass_after_pass (RateLimit.Throttle.new timeoutMs) now1 now2 Hz eq_refl)
    as [Hin Hout].
  pose proof (new_timeoutSeconds timeoutMs) as Hw.
  unfold RateLimit.Throttle.wrap_calls, RateLimit.Throttle.wrap_call.
  change (RateLimit.Throttle.tryPass now1 (RateLimit.Throttle.new timeoutMs))
    with (true, snd (RateLimit.Throttle.tryPass now1 (RateLimit.Throttle.new timeoutMs))).
  split.
  - intros Hlt. rewrite Hin by (rewrite Hw; exact Hlt). reflexivity.
  - intros Hge. destruct Hout as [Hp _]; [rewrite Hw; exact Hge|].
    destruct (RateLimit.Throttle.tryPass now2 _) as [p t']. simpl in Hp. subst p.
    reflexivity.
Qed.

Lemma throttle_wrap_drops_calls_in_window_witness :
  (~ 10 == 0 /\ 11 - 10 < 2000 / 1000)
  /\ fst (RateLimit.Throttle.wrap_calls (fun n : nat => S n)
            [(1%nat, 10); (5%nat, 11)] (RateLimit.Throttle.new 2000))
     = [Some 2%nat; None].
Proof.
  assert (H1 : ~ 10 == 0) by discriminate.
  assert (H2 : 11 - 10 < 2000 / 1000) by reflexivity.
  split; [split; assumption|].
  exact (proj1 (throttle_wrap_drops_calls_in_window
                  (fun n : nat => S n) 2000 1%nat 5%nat 10 11 H1) H2).
Defined.

(** ** DefaultMap *)

(** X23.  [get(key)] of a [DefaultMap] leaves the key present; asking
    again returns the same value and changes nothing, so the generator
    runs at most once for a key; and no other key is touched. *)
Theorem defaultmap_get_is_idempotent {K : Type} `{Countable K} {V : Type}
    (key : K) (dm : RateLimit.DefaultMap.t K V) :
  RateLimit.DefaultMap.has key (snd (RateLimit.DefaultMap.get key dm)) = true
  /\ RateLimit.DefaultMap.get key (snd (RateLimit.DefaultMap.get key dm)) = RateLimit.DefaultMap.get key dm
  /\ fst (RateLimit.DefaultMap.get key dm)
     = default (RateLimit.DefaultMap.generator dm key) (RateLimit.DefaultMap.map dm !! key)
  /\ (forall other, other <> key ->
      RateLimit.DefaultMap.map (snd (RateLimit.DefaultMap.get key dm)) !! other
      = RateLimit.DefaultMap.map dm !! other).
Proof.
  unfold RateLimit.DefaultMap.get, RateLimit.DefaultMap.has.
  destruct (RateLimit.DefaultMap.map dm !! key) as [v|] eqn:E; simpl.
  - rewrite E. split; [apply bool_decide_eq_true; eauto|].
    split; [reflexivity|]. split; [reflexivity|]. reflexivity.
  - rewrite lookup_insert_eq. split; [apply bool_decide_eq_true; eauto|].
    split; [reflexivity|]. split; [reflexivity|].
    intros other Hne. apply lookup_insert_ne. congruence.
Qed.

(** X24.  In a [DefaultMap], [set] wins over the generator: [get] after
    [set(key, value)] returns [value] and changes nothing.  [delete]
    tells whether the key was there, after it the key is absent, and the
    next [get] generates the value anew. *)
Theorem defaultmap_set_get_delete {K : Type} `{Countable K} {V : Type}
    (key : K) (value : V) (dm : RateLimit.DefaultMap.t K V) :
  RateLimit.DefaultMap.get key (RateLimit.DefaultMap.set key value dm)
  = (value, RateLimit.DefaultMap.set key value dm)
  /\ fst (RateLimit.DefaultMap.delete key (RateLimit.DefaultMap.set key value dm)) = true
  /\ fst (RateLimit.DefaultMap.delete key dm) = RateLimit.DefaultMap.has key dm
  /\ RateLimit.DefaultMap.has key (snd (RateLimit.DefaultMap.delete key dm)) = false
  /\ fst (RateLimit.DefaultMap.get key (snd (RateLimit.DefaultMap.delete key dm)))
     = RateLimit.DefaultMap.generator dm key.
Proof.
  unfold RateLimit.DefaultMap.get, RateLimit.DefaultMap.set, RateLimit.DefaultMap.delete, RateLimit.DefaultMap.has. simpl.
  rewrite lookup_insert_eq, lookup_delete_eq.
  split; [reflexivity|]. split; [apply bool_decide_eq_true; eauto|].
  split; [reflexivity|]. split; [|reflexivity].
  apply bool_decide_eq_false. intros [? ?]. discriminate.
Qed.

(** X25.  [get] grows a [DefaultMap] by one entry when the key is new and
    not at all when it is present; a cleared map is empty. *)
Theorem defaultmap_size {K : Type} `{Countable K} {V : Type}
    (key : K) (dm : RateLimit.DefaultMap.t K V) :
  RateLimit.DefaultMap.size (snd (RateLimit.DefaultMap.get key dm))
  = (if RateLimit.DefaultMap.has key dm then RateLimit.DefaultMap.size dm else S (RateLimit.DefaultMap.size dm))
  /\ RateLimit.DefaultMap.size (RateLimit.DefaultMap.clear dm) = 0%nat
  /\ RateLimit.DefaultMap.isEmpty (RateLimit.DefaultMap.clear dm) = true.
Proof.
  unfold RateLimit.DefaultMap.get, RateLimit.DefaultMap.has, RateLimit.DefaultMap.size, RateLimit.DefaultMap.clear,
    RateLimit.DefaultMap.isEmpty.
  split; [|split; [apply map_size_empty | apply bool_decide_eq_true; reflexivity]].
  destruct (RateLimit.DefaultMap.map dm !! key) as [v|] eqn:E; simpl.
  - reflexivity.
  - apply map_size_insert_None, E.
Qed.

(** ** Benchmarks: more *)

Section MoreBenchmarkFacts.

Import Benchmark.

Lemma round_whole (n : Z) : (0 <= n)%Z -> round (inject_Z n) = n.
Proof.
  intros Hn. unfold round.
  assert (H0 : Qle_bool 0 (inject_Z n) = true).
  { apply Qle_bool_iff. change 0 with (inject_Z 0). rewrite <- Zle_Qle. exact Hn. }
  rewrite H0.
  apply Z.le_antisymm.
  - assert (H : inject_Z (Qfloor (inject_Z n + (1 # 2))) < inject_Z (n + 1)).
    { pose proof (Qfloor_le (inject_Z n + (1 # 2))) as Hf.
      rewrite inject_Z_plus. change (inject_Z 1) with 1. lra. }
    rewrite <- Zlt_Qlt in H. lia.
  - rewrite <- (Qfloor_Z n) at 1. apply Qfloor_resp_le. lra.
Qed.

Lemma runs_of_at_least_one runCount : (1 <= runs_of runCount)%Z.
Proof.
  unfold runs_of, round.
  pose proof (Q.le_max_r runCount 1) as Hm.
  assert (H0 : Qle_bool 0 (Qmax runCount 1) = true) by (apply Qle_bool_iff; lra).
  rewrite H0.
  assert (H : (Qfloor 1 <= Qfloor (Qmax runCount 1 + (1 # 2)))%Z)
    by (apply Qfloor_resp_le; lra).
  exact H.
Qed.

End MoreBenchmarkFacts.

(** X26.  A benchmark started under a free id and then stopped gives the
    time between the two calls, for one run, named after the id, and
    leaves the registry as it was before the start; starting it touches
    no other id. *)
Theorem benchmark_start_stop_round_trip id cpu1 cpu2 (running : gmap string Q) :
  running !! id = None ->
  Benchmark.stop id cpu2 (fst (Benchmark.start id cpu1 running))
  = (running,
     Benchmark.Returned
       {| Benchmark.totalSeconds := cpu2 - cpu1; Benchmark.runCount := 1;
          Benchmark.opName := Some id |})
  /\ (forall other, other <> id ->
      fst (Benchmark.start id cpu1 running) !! other = running !! other).
Proof.
  intros Hfree. rewrite (start_fresh id cpu1 running Hfree). simpl. split.
  - rewrite (stop_running id cpu2 _ cpu1) by apply lookup_insert_eq.
    rewrite delete_insert_id by exact Hfree. reflexivity.
  - intros other Hne. apply lookup_insert_ne. congruence.
Qed.

Lemma benchmark_start_stop_round_trip_witness :
  ({[ "load" := 3 ]} : gmap string Q) !! "save" = None
  /\ Benchmark.stop "save" 9
       (fst (Benchmark.start "save" 4 ({[ "load" := 3 ]} : gmap string Q)))
     = ({[ "load" := 3 ]},
        Benchmark.Returned
          {| Benchmark.totalSeconds := 9 - 4; Benchmark.runCount := 1;
             Benchmark.opName := Some "save" |}).
Proof.
  assert (H : ({[ "load" := 3 ]} : gmap string Q) !! "save" = None).
  { vm_compute. reflexivity. }
  split; [exact H|].
  exact (proj1 (benchmark_start_stop_round_trip "save" 4 9 _ H)).
Defined.

(** X27.  [formatSeconds] shows a duration under a millisecond in
    microseconds, one under a second in milliseconds, and any other in
    seconds; in exact arithmetic the value handed to the format string,
    in the unit shown, is the duration.  (On binary64 the conversion can
    change the last digit of that value.) *)
Theorem formatSeconds_picks_unit seconds :
  snd (Benchmark.formatSeconds_choice seconds)
  = (if Qlt_le_dec seconds (1 # 1000) then Time.Unit Time.MICRO
     else if Qlt_le_dec seconds 1 then Time.Unit Time.MILLI
     else Time.Unit Time.SECOND)
  /\ fst (Benchmark.formatSeconds_choice seconds)
     * Time.seconds (snd (Benchmark.formatSeconds_choice seconds))
     == seconds.
Proof.
  unfold Benchmark.formatSeconds_choice, Time.convert. simpl.
  destruct (Qle_bool 1000 (seconds * 1 / (1 # 1000000))) eqn:E1; simpl.
  - apply Qle_bool_iff in E1.
    assert (H1 : 1 # 1000 <= seconds).
    { assert (E : seconds * 1 / (1 # 1000000) == 1000000 * seconds) by field. lra. }
    destruct (Qlt_le_dec seconds (1 # 1000)) as [H | _]; [lra|].
    destruct (Qle_bool 1000 (seconds * 1 / (1 # 1000))) eqn:E2; simpl.
    + apply Qle_bool_iff in E2.
      assert (H2 : 1 <= seconds).
      { assert (E : seconds * 1 / (1 # 1000) == 1000 * seconds) by field. lra. }
      destruct (Qlt_le_dec seconds 1) as [H | _]; [lra|].
      split; [reflexivity | ring].
    + assert (H2 : seconds < 1).
      { destruct (Qlt_le_dec seconds 1) as [H | H]; [exact H|].
        assert (E : seconds * 1 / (1 # 1000) == 1000 * seconds) by field.
        assert (Hc : 1000 <= seconds * 1 / (1 # 1000)) by lra.
        apply Qle_bool_iff in Hc. congruence. }
      destruct (Qlt_le_dec seconds 1) as [_ | H]; [|lra].
      split; [reflexivity | field].
  - assert (H1 : seconds < 1 # 1000).
    { destruct (Qlt_le_dec seconds (1 # 1000)) as [H | H]; [exact H|].
      assert (E : seconds * 1 / (1 # 1000000) == 1000000 * seconds) by field.
      assert (Hc : 1000 <= seconds * 1 / (1 # 1000000)) by lra.
      apply Qle_bool_iff in Hc. congruence. }
    destruct (Qlt_le_dec seconds (1 # 1000)) as [_ | H]; [|lra].
    split; [reflexivity | field].
Qed.

(** X28.  For every [runCount] that is a finite number, [run(f, runCount)]
    runs [f] a whole number of times, at least once: [max(n, 1)] times
    for a whole [runCount] [n], so that a counter that [f] increments
    reads [max(n, 1)] afterwards.  ([Q] has no [nan]: with a [runCount]
    of [nan] the host's loop does not run at all.) *)
Theorem benchmark_run_count (runCount start fin : Q) :
  (1 <= Benchmark.runs_of runCount)%Z
  /\ (forall n : Z, Benchmark.runs_of (inject_Z n) = Z.max n 1)
  /\ (forall n : Z,
        fst (Benchmark.run S (inject_Z n) start fin 0%nat)
        = Z.to_nat (Z.max n 1)).
Proof.
  pose proof (runs_of_at_least_one runCount) as H1.
  assert (H2 : forall n : Z, Benchmark.runs_of (inject_Z n) = Z.max n 1).
  { intros n. unfold Benchmark.runs_of.
      destruct (Z.le_ge_cases n 1) as [Hn | Hn].
      + rewrite Z.max_r by exact Hn.
        assert (E : Qmax (inject_Z n) 1 == inject_Z 1).
        { apply Q.max_r. change 1 with (inject_Z 1). rewrite <- Zle_Qle. exact Hn. }
        unfold Benchmark.round.
        assert (H0 : Qle_bool 0 (Qmax (inject_Z n) 1) = true).
        { apply Qle_bool_iff. rewrite E. discriminate. }
        rewrite H0.
        assert (E' : Qmax (inject_Z n) 1 + (1 # 2) == inject_Z 1 + (1 # 2))
          by (rewrite E; reflexivity).
        rewrite (Qfloor_comp _ _ E'). reflexivity.
      + rewrite Z.max_l by exact Hn.
        assert (E : Qmax (inject_Z n) 1 == inject_Z n).
        { apply Q.max_l. change 1 with (inject_Z 1). rewrite <- Zle_Qle. exact Hn. }
        rewrite <- (round_whole n) at 2 by lia.
        unfold Benchmark.round.
        assert (H0 : Qle_bool 0 (Qmax (inject_Z n) 1) = true).
        { apply Qle_bool_iff. rewrite E. change 0 with (inject_Z 0).
          rewrite <- Zle_Qle. lia. }
        assert (H0' : Qle_bool 0 (inject_Z n) = true).
        { apply Qle_bool_iff. change 0 with (inject_Z 0). rewrite <- Zle_Qle. lia. }
        rewrite H0, H0'.
        apply Qfloor_comp. rewrite E. reflexivity. }
  split; [exact H1|]. split; [exact H2|].
  intros n. unfold Benchmark.run. simpl. rewrite H2.
  generalize (Z.to_nat (Z.max n 1)). intros k.
  induction k as [|k IH]; [reflexivity|]. simpl. rewrite IH. reflexivity.
Qed.
